(** * audit-monitor: the risk-scoring pipeline and the two edge functions

    A shallow embedding of
    - [supabase/functions/analyze-transactions/index.ts]: the rate limiter,
      the dataset-level duplicate grouper, the ordered rule chain of
      [analyzeTransaction] and the part of the request handler that merges
      the narrative generator's answer onto the assessments;
    - the report-generation edge function (its rate limiter and its request
      handler);
    - the session statistics the report function computes for its prompt
      (vendor, risk-factor and department tables);
    - the file and row validation, the cell sanitiser and the risk counts
      of [src/pages/Upload.tsx];
    - the colour helpers of [src/pages/TransactionDetail.tsx].

    Modelling conventions.
    - A JavaScript [number] holding an amount is an exact rational ([Q]):
      the ingested amounts are finite decimals ([DECIMAL(15,2)] in the
      schema, [Number.isFinite] in the upload validation). [Date.now()] is an
      integer number of milliseconds ([Z]); array lengths are [nat].
    - A JavaScript string is a [string] of code units; [trim] removes the
      ASCII white space and line terminators and [toUpperCase] maps [a-z] to
      [A-Z] (code units above 127 are left alone).
    - A field read through [?? ""] is an [option string]: [None] is
      [null]/[undefined].
    - A [Map] iterated in insertion order is an association list; the
      rate-limit store, only ever read by key, is a [gmap]. *)

From Stdlib Require Import QArith Qround Ascii String.
From stdpp Require Import gmap strings list pretty.
From stdpp Require Import sorting.
From Stdlib Require Import Lqa.

#[local] Set Warnings "-register-all,-clear-no-such-hyp".

Local Open Scope string_scope.
Local Open Scope list_scope.
Local Open Scope nat_scope.
Local Open Scope stdpp_scope.

(** ** The JavaScript built-ins the code relies on *)

Module JS.

(** [String.prototype.trim]. *)
Fixpoint trimStart (s : string) : string :=
  match s with
  | String c s' => if Ascii.is_space c then trimStart s' else s
  | EmptyString => EmptyString
  end.

Definition trimEnd (s : string) : string :=
  String.rev (trimStart (String.rev s)).

Definition trim (s : string) : string := trimEnd (trimStart s).

(** [String.prototype.toUpperCase]. *)
Definition upper_char (c : ascii) : ascii :=
  let n := nat_of_ascii c in
  if (97 <=? n)%nat && (n <=? 122)%nat then ascii_of_nat (n - 32) else c.

Fixpoint toUpperCase (s : string) : string :=
  match s with
  | String c s' => String (upper_char c) (toUpperCase s')
  | EmptyString => EmptyString
  end.

(** [x ?? ""]. *)
Definition orEmpty (x : option string) : string := default "" x.

(** [Number(x) || 0] on a finite number: zero is the only falsy one. *)
Definition orZero (x : Q) : Q := if Qeq_bool x 0 then 0%Q else x.

(** [Math.round]: the nearest integer, ties towards plus infinity. *)
Definition Math_round (x : Q) : Z := Qfloor (x + (1 # 2)).

(** [Math.ceil (n / 1000)] for an integer [n]. *)
Definition Math_ceil_div (n d : Z) : Z := (- ((- n) / d))%Z.

(** Comparison of numbers. *)
Definition gt (x y : Q) : bool := negb (Qle_bool x y).
Definition ge (x y : Q) : bool := Qle_bool y x.
Definition le (x y : Q) : bool := Qle_bool x y.

(** [Array.prototype.join]. *)
Fixpoint join (sep : string) (l : list string) : string :=
  match l with
  | [] => ""
  | [x] => x
  | x :: l' => x +:+ sep +:+ join sep l'
  end.

(** [Map.prototype.get] and [Map.prototype.set] on a map kept in insertion
    order: [set] on a key already present keeps its position. *)
Fixpoint Map_get {V} (k : string) (m : list (string * V)) : option V :=
  match m with
  | [] => None
  | (k', v) :: m' => if decide (k' = k) then Some v else Map_get k m'
  end.

Fixpoint Map_set {V} (k : string) (v : V) (m : list (string * V))
    : list (string * V) :=
  match m with
  | [] => [(k, v)]
  | (k', v') :: m' =>
      if decide (k' = k) then (k, v) :: m' else (k', v') :: Map_set k v m'
  end.

(** [String.prototype.includes]. *)
Fixpoint includes (s sub : string) : bool :=
  String.prefix sub s ||
  match s with
  | String _ s' => includes s' sub
  | EmptyString => false
  end.

(** [String.prototype.startsWith]. *)
Definition startsWith (s p : string) : bool := String.prefix p s.

(** Truthiness of a string that may be [undefined]. *)
Definition truthyStr (x : option string) : bool :=
  match x with
  | Some s => bool_decide (s ≠ "")
  | None => false
  end.

(** A value produced by [JSON.parse] or [Response.json]. The fields of an
    object are kept in order, each name once. *)
Inductive Json :=
| JNull
| JBool (b : bool)
| JNum (q : Q)
| JStr (s : string)
| JArr (items : list Json)
| JObj (fields : list (string * Json)).

(** Truthiness of a value that may be [undefined] ([None]). *)
Definition truthy (v : option Json) : bool :=
  match v with
  | None | Some JNull | Some (JBool false) | Some (JStr "") => false
  | Some (JNum q) => negb (Qeq_bool q 0)
  | Some _ => true
  end.

(** [v.name] on a value that is neither [null] nor [undefined], for the
    property names the handlers read ([choices], [message], [content],
    [transaction_id], ...): only an object can have them. *)
Definition prop (name : string) (v : Json) : option Json :=
  match v with
  | JObj fields => Map_get name fields
  | _ => None
  end.

(** [v?.name]. *)
Definition optProp (name : string) (v : option Json) : option Json :=
  match v with
  | None | Some JNull => None
  | Some v' => prop name v'
  end.

(** [v?.[0]]: the first element of an array, the first code unit of a
    string, the property ["0"] of an object. *)
Definition optIndex0 (v : option Json) : option Json :=
  match v with
  | Some (JArr (x :: _)) => Some x
  | Some (JStr (String c _)) => Some (JStr (String c ""))
  | Some (JObj fields) => Map_get "0" fields
  | _ => None
  end.

(** Control leaves a [try] block either with a value or with a thrown
    [Error] carrying a message. *)
Inductive Outcome (A : Type) :=
| Ret (a : A)
| Throw (message : string).
Arguments Ret {A} a.
Arguments Throw {A} message.

(** The message of the [TypeError] V8 raises on reading a property of
    [null]. *)
Definition nullPropertyError (name : string) : string :=
  "Cannot read properties of null (reading '" +:+ name +:+ "')".

End JS.

(** ** The fixed-window rate limiter (both edge functions) *)

Module RateLimit.

Record Entry := { count : nat; resetTime : Z }.

Inductive Result :=
| Allowed
| Denied (retryAfter : Z).

Definition allowed (r : Result) : bool :=
  match r with Allowed => true | Denied _ => false end.

Section Limiter.
Variable RATE_LIMIT_WINDOW_MS : Z.
Variable MAX_PER_WINDOW : nat.

(** [checkRateLimit(userId)], with [Date.now()] and the store made
    explicit. *)
Definition checkRateLimit (now : Z) (userId : string)
    (rateLimitStore : gmap string Entry) : Result * gmap string Entry :=
  match rateLimitStore !! userId with
  | Some userLimit =>
      if bool_decide (resetTime userLimit ≤ now)%Z then
        (Allowed,
         <[userId := {| count := 1;
                        resetTime := (now + RATE_LIMIT_WINDOW_MS)%Z |}]>
           rateLimitStore)
      else if bool_decide (MAX_PER_WINDOW ≤ count userLimit)%nat then
        (Denied (JS.Math_ceil_div (resetTime userLimit - now)%Z 1000%Z),
         rateLimitStore)
      else
        (Allowed,
         <[userId := {| count := S (count userLimit);
                        resetTime := resetTime userLimit |}]>
           rateLimitStore)
  | None =>
      (Allowed,
       <[userId := {| count := 1;
                      resetTime := (now + RATE_LIMIT_WINDOW_MS)%Z |}]>
         rateLimitStore)
  end.

(** The same caller calling at the instants [times], one after the
    other. *)
Fixpoint requests (times : list Z) (userId : string)
    (store : gmap string Entry) : list Result * gmap string Entry :=
  match times with
  | [] => ([], store)
  | now :: times' =>
      let '(r, store') := checkRateLimit now userId store in
      let '(rs, store'') := requests times' userId store' in
      (r :: rs, store'')
  end.
End Limiter.

End RateLimit.

(** ** supabase/functions/analyze-transactions/index.ts *)

Module AnalyzeTransactions.

Definition RATE_LIMIT_WINDOW_MS : Z := (60 * 60 * 1000)%Z.
Definition MAX_REQUESTS_PER_WINDOW : nat := 10.

Definition checkRateLimit :=
  RateLimit.checkRateLimit RATE_LIMIT_WINDOW_MS MAX_REQUESTS_PER_WINDOW.

Definition MEDIUM_RISK_COUNTRIES : list string := ["PANAMA"; "UAE"].

(** [interface Transaction]; its fields live in [Tx] because a risk
    factor has a [description] and an assessment a [transaction_id] too. *)
Module Tx.
Record Transaction := {
  id : string;
  transaction_id : string;
  transaction_date : string;
  amount : Q;
  vendor_name : option string;
  vendor_country : option string;
  payment_method : string;
  department : string;
  description : string;
}.
End Tx.
Abbreviation Transaction := Tx.Transaction.

Inductive Severity := HIGH | MEDIUM.

Record RiskFactor := {
  type : string;
  description : string;
  severity : Severity;
}.

Inductive Level := low | medium | high.

Record RiskResult := {
  level : Level;
  factors : list RiskFactor;
  score : nat;
  why : string;
}.

Global Instance Severity_eq_dec : EqDecision Severity.
Proof. solve_decision. Defined.
Global Instance RiskFactor_eq_dec : EqDecision RiskFactor.
Proof. solve_decision. Defined.
Global Instance Level_eq_dec : EqDecision Level.
Proof. solve_decision. Defined.
Global Instance RiskResult_eq_dec : EqDecision RiskResult.
Proof. solve_decision. Defined.

(** The normalised vendor name and the amount in cents, as both
    [buildDuplicateGroups] and [analyzeTransaction] compute them. *)
Definition normVendor (tx : Transaction) : string :=
  JS.toUpperCase (JS.trim (JS.orEmpty (Tx.vendor_name tx))).

Definition cents (tx : Transaction) : Z :=
  JS.Math_round (JS.orZero (Tx.amount tx) * 100).

(** The template literal [`${vendor}|${date}|${amount}`]; the amount is an
    integer, printed in plain decimal. *)
Definition groupKey (tx : Transaction) : string :=
  normVendor tx +:+ "|" +:+ Tx.transaction_date tx +:+ "|" +:+ pretty (cents tx).

(** [Map<string, string[]>], in insertion order. *)
Definition Groups := list (string * list string).

Definition addToGroups (groups : Groups) (tx : Transaction) : Groups :=
  let vendor := normVendor tx in
  if decide (vendor = "") then groups (* continue *)
  else
    let key := groupKey tx in
    let existing := default [] (JS.Map_get key groups) in
    JS.Map_set key (existing ++ [Tx.id tx]) groups.

Definition buildDuplicateGroups (transactions : list Transaction) : Groups :=
  foldl addToGroups [] transactions.

Fixpoint isDuplicate (txId : string) (duplicateGroups : Groups)
    : bool * nat :=
  match duplicateGroups with
  | [] => (false, 0)
  | (_, ids) :: rest =>
      if bool_decide (txId ∈ ids) && (1 <? length ids)
      then (true, length ids)
      else isDuplicate txId rest
  end.

Section Rules.
(** [Number.prototype.toLocaleString] depends on the runtime's locale. *)
Variable toLocaleString : Q → string.

Definition duplicateResult (count : nat) : RiskResult :=
  {| level := high;
     score := 90;
     why := "Rule 1 triggered: Duplicate transaction ("
            +:+ pretty count +:+ " occurrences)";
     factors := [ {|
       type := "duplicate_transaction";
       description :=
         "DUPLICATE TRANSACTION (Rule 1): Same vendor, amount, and date occurs "
         +:+ pretty count +:+ " times";
       severity := HIGH |} ] |}.

Definition highValueResult (amount : Q) : RiskResult :=
  {| level := high;
     score := 85;
     why := "Rule 2 triggered: Amount > 1,000,000";
     factors := [ {|
       type := "high_value_transaction";
       description :=
         "HIGH-VALUE TRANSACTION (Rule 2): Amount ₹"
         +:+ toLocaleString amount +:+ " exceeds ₹1,000,000";
       severity := HIGH |} ] |}.

Definition mediumValueResult (amount : Q) : RiskResult :=
  {| level := medium;
     score := 60;
     why := "Rule 2 triggered: Amount between 500,000 and 1,000,000";
     factors := [ {|
       type := "high_value_transaction";
       description :=
         "HIGH-VALUE TRANSACTION (Rule 2): Amount ₹"
         +:+ toLocaleString amount
         +:+ " is between ₹500,000 and ₹1,000,000";
       severity := MEDIUM |} ] |}.

Definition vendorCountryResult (vendorCountry : string) : RiskResult :=
  {| level := medium;
     score := 50;
     why := "Rule 3 triggered: Vendor country is " +:+ vendorCountry;
     factors := [ {|
       type := "vendor_country_risk";
       description :=
         "VENDOR COUNTRY RISK (Rule 3): Vendor country is "
         +:+ vendorCountry;
       severity := MEDIUM |} ] |}.

Definition frequencyResult (sameVendorSameDateCount : nat) : RiskResult :=
  {| level := medium;
     score := 45;
     why := "Rule 4 triggered: " +:+ pretty sameVendorSameDateCount
            +:+ " payments to same vendor on same date";
     factors := [ {|
       type := "frequency_risk";
       description :=
         "FREQUENCY RISK (Rule 4): " +:+ pretty sameVendorSameDateCount
         +:+ " payments to the same vendor on the same date";
       severity := MEDIUM |} ] |}.

Definition lowResult : RiskResult :=
  {| level := low; score := 0; why := "No rule triggered"; factors := [] |}.

(** The vendor country after [trim], [toUpperCase] and the
    "UNITED ARAB EMIRATES" alias. *)
Definition normCountry (tx : Transaction) : string :=
  let vendorCountry :=
    JS.toUpperCase (JS.trim (JS.orEmpty (Tx.vendor_country tx))) in
  if decide (vendorCountry = "UNITED ARAB EMIRATES") then "UAE"
  else vendorCountry.

(** The callback of [allTransactions.filter] in rule 4. *)
Definition sameVendorSameDate (vendorName txDate : string)
    (t : Transaction) : Prop :=
  normVendor t = vendorName ∧ Tx.transaction_date t = txDate.

Global Instance sameVendorSameDate_dec v d t :
  Decision (sameVendorSameDate v d t).
Proof. unfold sameVendorSameDate. apply _. Defined.

Definition analyzeTransaction (transaction : Transaction)
    (allTransactions : list Transaction) (duplicateGroups : Groups)
    : RiskResult :=
  let vendorName := normVendor transaction in
  let txDate := Tx.transaction_date transaction in
  let amount := JS.orZero (Tx.amount transaction) in
  (* [amountK] is computed by the source and never read *)
  let vendorCountry := normCountry transaction in
  (* RULE 1 *)
  let '(isDup, count) := isDuplicate (Tx.id transaction) duplicateGroups in
  if isDup then duplicateResult count
  (* RULE 2 *)
  else if JS.gt amount 1000000 then highValueResult amount
  else if JS.ge amount 500000 && JS.le amount 1000000
  then mediumValueResult amount
  (* RULE 3 *)
  else if bool_decide (vendorCountry ≠ "")
          && bool_decide (vendorCountry ∈ MEDIUM_RISK_COUNTRIES)
  then vendorCountryResult vendorCountry
  (* RULE 4 *)
  else if bool_decide (vendorName ≠ "") then
    let sameVendorSameDateCount :=
      length (filter (sameVendorSameDate vendorName txDate)
                     allTransactions) in
    if (1 <? sameVendorSameDateCount)
    then frequencyResult sameVendorSameDateCount
    else lowResult
  else lowResult.

(** What the request handler computes for a batch: the groups once, then
    one result per transaction. *)
Definition evaluate (transactions : list Transaction)
    (tx : Transaction) : RiskResult :=
  analyzeTransaction tx transactions (buildDuplicateGroups transactions).
End Rules.

(** *** The request handler *)

(** One element of [assessments]. [audit_observation] and
    [suggested_action] are absent until [Object.assign] sets them. *)
Record Assessment := {
  transaction_id : string;
  risk_score : nat;
  risk_level : Level;
  risk_factors : list RiskFactor;
  risk_reason : string;
  triggered_rules : string;
  audit_observation : option JS.Json;
  suggested_action : option JS.Json;
}.

(** What [fetch] resolved to: the status line and what [json()] gives
    ([inl]: it rejects with that message). *)
Module Fetch.
Record Response := {
  status : nat;
  json : string + JS.Json;
}.
Definition ok (r : Response) : bool :=
  (200 <=? status r) && (status r <=? 299).
End Fetch.

(** The [Response] the handler answers with: status, and the members of
    its JSON body that are present. *)
Record Response := {
  status : nat;
  error : option string;
  retry_after : option Z;
  assessments : option (list Assessment);
}.

Record Body := {
  transactions : option (list Transaction); (* [None]: absent, not an array *)
  sessionId : string;
}.

Record Request := {
  method : string;
  Authorization : option string;
  body : string + Body;                     (* [inl]: [req.json()] rejects *)
}.

(** Everything the handler reads from outside during one invocation. *)
Record World := {
  SUPABASE_URL : option string;
  SUPABASE_ANON_KEY : option string;
  LOVABLE_API_KEY : option string;
  getClaims : option string;                (* [claims.sub]; [None]: error *)
  now : Z;
  fetch : string + Fetch.Response;          (* [inl]: [fetch] rejects *)
}.

Section Handler.
Variable toLocaleString : Q → string.
(** [JSON.parse] ([inl]: it throws) and [s.replace(re, '')] for a
    global regular expression given by its source text. *)
Variable JSON_parse : string → string + JS.Json.
Variable replaceAll : string → string → string.

Definition assess (transactions : list Transaction)
    (duplicateGroups : Groups) (tx : Transaction) : Assessment :=
  let r := analyzeTransaction toLocaleString tx transactions
             duplicateGroups in
  {| transaction_id := Tx.id tx;
     risk_score := score r;
     risk_level := level r;
     risk_factors := factors r;
     risk_reason := why r;
     triggered_rules :=
       (let s := JS.join ", " (type <$> factors r) in
        if decide (s = "") then "None" else s);
     audit_observation := None;
     suggested_action := None |}.

(** [Object.assign(assessment, { audit_observation, suggested_action })]. *)
Definition assign (explanation : JS.Json) (a : Assessment) : Assessment :=
  {| transaction_id := transaction_id a;
     risk_score := risk_score a;
     risk_level := risk_level a;
     risk_factors := risk_factors a;
     risk_reason := risk_reason a;
     triggered_rules := triggered_rules a;
     audit_observation := JS.prop "audit_observation" explanation;
     suggested_action := JS.prop "suggested_action" explanation |}.

(** [a.transaction_id === explanation.transaction_id]. *)
Definition matchesId (explanation : JS.Json) (a : Assessment) : Prop :=
  JS.prop "transaction_id" explanation = Some (JS.JStr (transaction_id a)).

Global Instance matchesId_dec e a : Decision (matchesId e a).
Proof.
  unfold matchesId.
  destruct (JS.prop "transaction_id" e) as [[| | |s| |]|];
    try (right; discriminate).
  destruct (decide (s = transaction_id a)) as [->|Hne];
    [left; reflexivity | right; congruence].
Defined.

(** One turn of the merge loop; [None]: a [TypeError] was thrown (the
    callback of [find] reads a property of [null]). *)
Definition mergeOne (assessments : list Assessment)
    (explanation : JS.Json) : option (list Assessment) :=
  match assessments, explanation with
  | _ :: _, JS.JNull => None
  | _, _ =>
      match list_find (matchesId explanation) assessments with
      | Some (i, a) => Some (<[i := assign explanation a]> assessments)
      | None => Some assessments
      end
  end.

(** The loop; an exception ends it and what was assigned stays. *)
Fixpoint mergeAll (aiExplanations : list JS.Json)
    (assessments : list Assessment) : list Assessment :=
  match aiExplanations with
  | [] => assessments
  | explanation :: rest =>
      match mergeOne assessments explanation with
      | Some assessments' => mergeAll rest assessments'
      | None => assessments
      end
  end.

Fixpoint codeUnits (s : string) : list JS.Json :=
  match s with
  | String c s' => JS.JStr (String c "") :: codeUnits s'
  | EmptyString => []
  end.

(** [for (const explanation of aiExplanations)]: an array and a string
    are iterable; anything else throws, which the [catch] swallows. *)
Definition mergeParsed (aiExplanations : JS.Json)
    (assessments : list Assessment) : list Assessment :=
  match aiExplanations with
  | JS.JArr items => mergeAll items assessments
  | JS.JStr s => mergeAll (codeUnits s) assessments
  | _ => assessments
  end.

Definition cleanContent (aiContent : string) : string :=
  JS.trim (replaceAll "```\n?" (replaceAll "```json\n?" aiContent)).

(** [if (aiContent) { try { ... } catch (parseError) { ... } }]. *)
Definition mergeContent (aiContent : option JS.Json)
    (assessments : list Assessment) : list Assessment :=
  if JS.truthy aiContent then
    match aiContent with
    | Some (JS.JStr s) =>
        match JSON_parse (cleanContent s) with
        | inr aiExplanations => mergeParsed aiExplanations assessments
        | inl _ => assessments
        end
    | _ => assessments (* [replace] is not a function *)
    end
  else assessments.

Definition okResponse (assessments : list Assessment) : Response :=
  {| status := 200; error := None; retry_after := None;
     assessments := Some assessments |}.

(** From [if (!aiResponse.ok)] to the end of the [try] block. *)
Definition afterNarrative (assessments : list Assessment)
    (aiResponse : Fetch.Response) : JS.Outcome Response :=
  if negb (Fetch.ok aiResponse) then
    if decide (Fetch.status aiResponse = 429) then
      JS.Ret {| status := 429;
                error := Some "Rate limit exceeded. Please try again in a moment.";
                retry_after := None;
                assessments := Some assessments |}
    else if decide (Fetch.status aiResponse = 402) then
      JS.Ret {| status := 402;
                error := Some "AI credits exhausted. Please add credits to continue.";
                retry_after := None;
                assessments := Some assessments |}
    else JS.Ret (okResponse assessments)
  else
    match Fetch.json aiResponse with
    | inl message => JS.Throw message
    | inr JS.JNull => JS.Throw (JS.nullPropertyError "choices")
    | inr aiData =>
        let aiContent :=
          JS.optProp "content"
            (JS.optProp "message"
               (JS.optIndex0 (JS.prop "choices" aiData))) in
        JS.Ret (okResponse (mergeContent aiContent assessments))
    end.

Definition errorResponse (status : nat) (message : string)
    (retry_after : option Z) : Response :=
  {| status := status; error := Some message; retry_after := retry_after;
     assessments := None |}.

(** The body of the [try] block once the caller is authenticated and
    within the rate limit. *)
Definition analyze (req : Request) (w : World) : JS.Outcome Response :=
  if negb (JS.truthyStr (LOVABLE_API_KEY w)) then
    JS.Throw "Service configuration error"
  else
    match body req with
    | inl message => JS.Throw message
    | inr b =>
        match transactions b with
        | None | Some [] => JS.Throw "No transactions provided"
        | Some transactions =>
            let duplicateGroups := buildDuplicateGroups transactions in
            let assessments :=
              assess transactions duplicateGroups <$> transactions in
            let flaggedTransactions :=
              filter (λ a, risk_level a ≠ low) assessments in
            if decide (length flaggedTransactions = 0) then
              JS.Ret (okResponse assessments)
            else
              match fetch w with
              | inl message => JS.Throw message
              | inr aiResponse => afterNarrative assessments aiResponse
              end
        end
    end.

Definition userSafeErrors : list string := ["No transactions provided"].

(** The [catch (error)] clause. *)
Definition onError (message : string) : Response :=
  let safeMessage :=
    if existsb (JS.includes message) userSafeErrors then message
    else "Analysis failed. Please try again." in
  errorResponse 500 safeMessage None.

(** [serve(async (req) => ...)], with the rate-limit store threaded. *)
Definition serve (req : Request) (w : World)
    (rateLimitStore : gmap string RateLimit.Entry)
    : Response * gmap string RateLimit.Entry :=
  if decide (method req = "OPTIONS") then
    ({| status := 200; error := None; retry_after := None;
        assessments := None |}, rateLimitStore)
  else
    match Authorization req with
    | Some authHeader =>
      if JS.startsWith authHeader "Bearer " then
        if negb (JS.truthyStr (SUPABASE_URL w))
           || negb (JS.truthyStr (SUPABASE_ANON_KEY w)) then
          (onError "Service configuration error", rateLimitStore)
        else
          match getClaims w with
          | None =>
              (errorResponse 401 "Unauthorized: Invalid token" None,
               rateLimitStore)
          | Some userId =>
              match checkRateLimit (now w) userId rateLimitStore with
              | (RateLimit.Denied retryAfter, store') =>
                  (errorResponse 429
                     "Rate limit exceeded. Please try again later."
                     (Some retryAfter), store')
              | (RateLimit.Allowed, store') =>
                  (match analyze req w with
                   | JS.Ret response => response
                   | JS.Throw message => onError message
                   end, store')
              end
          end
      else
        (errorResponse 401
           "Unauthorized: Missing or invalid authorization header" None,
         rateLimitStore)
    | None =>
        (errorResponse 401
           "Unauthorized: Missing or invalid authorization header" None,
         rateLimitStore)
    end.
End Handler.

End AnalyzeTransactions.

(** ** The report-generation edge function *)

Module GenerateAuditReport.

Definition RATE_LIMIT_WINDOW_MS : Z := (24 * 60 * 60 * 1000)%Z.
Definition MAX_REPORTS_PER_WINDOW : nat := 20.

Definition checkRateLimit :=
  RateLimit.checkRateLimit RATE_LIMIT_WINDOW_MS MAX_REPORTS_PER_WINDOW.

(** Rows of [analysis_sessions], [transactions] and [risk_assessments], with
    the columns the handler reads. *)
Module Session.
Record Row := { id : string; user_id : string; file_name : option string }.
End Session.

Module Tx.
Record Row := { id : string; session_id : string; amount : option Q }.
End Tx.

Module Ra.
Record Row := { transaction_id : string; risk_level : string }.
End Ra.

(** The row the handler inserts into [audit_reports]. *)
Module Report.
Record Statistics := {
  total_transactions : nat;
  high_risk : nat;
  medium_risk : nat;
  low_risk : nat;
  total_amount : Q;
}.
Record Row := {
  session_id : string;
  user_id : string;
  title : string;
  executive_summary : option JS.Json;
  risk_posture : option JS.Json;
  key_risk_themes : option JS.Json;
  areas_of_attention : option JS.Json;
  statistics : Statistics;
}.
End Report.

Module Fetch.
Record Response := {
  status : nat;
  json : string + JS.Json;
}.
Definition ok (r : Response) : bool :=
  (200 <=? status r) && (status r <=? 299).
End Fetch.

Record Response := {
  status : nat;
  error : option string;
  retry_after : option Z;
  report : option JS.Json;
  success : bool;
}.

Record Request := {
  method : string;
  Authorization : option string;
  body : string + option string;   (* [sessionId]; [inl]: [req.json()] rejects *)
}.

(** Everything the handler reads from outside during one invocation: the
    environment, the clock, the tables, whether a query fails for a reason
    of the database's own, and the narrative generator's answer. *)
Record World := {
  LOVABLE_API_KEY : option string;
  SUPABASE_URL : option string;
  SUPABASE_ANON_KEY : option string;
  SUPABASE_SERVICE_ROLE_KEY : option string;
  getClaims : option string;
  now : Z;
  analysis_sessions : list Session.Row;
  transactions : list Tx.Row;
  risk_assessments : list Ra.Row;
  sessionQueryFails : bool;
  txQueryFails : bool;
  raQueryFails : bool;
  insertFails : bool;
  fetch : string + Fetch.Response;
}.

Section Handler.
Variable JSON_parse : string → string + JS.Json.
Variable replaceAll : string → string → string.

(** [.from("analysis_sessions").select("*").eq("id", sessionId)
     .eq("user_id", userId).single()]: the row if exactly one matches. *)
Definition selectSession (w : World) (sessionId userId : string)
    : option Session.Row :=
  if sessionQueryFails w then None
  else
    match filter (λ r, Session.id r = sessionId ∧ Session.user_id r = userId)
                 (analysis_sessions w) with
    | [session] => Some session
    | _ => None
    end.

Definition countLevel (lvl : string) (ras : list Ra.Row) : nat :=
  length (filter (λ ra, Ra.risk_level ra = lvl) ras).

(** [transactions.reduce((sum, t) => sum + (t.amount || 0), 0)]. *)
Definition totalAmount (txs : list Tx.Row) : Q :=
  foldl (λ sum t, (sum + JS.orZero (default 0%Q (Tx.amount t)))%Q) 0%Q txs.

Definition errorResponse (status : nat) (message : string)
    (retry_after : option Z) : Response :=
  {| status := status; error := Some message; retry_after := retry_after;
     report := None; success := false |}.

Definition cleanContent (content : string) : string :=
  JS.trim (replaceAll "```\n?" (replaceAll "```json\n?" content)).

(** The body of the [try] block once the caller is authenticated and
    within the rate limit. It yields the response and the rows written to
    [audit_reports]. The statistics that only feed the prompt text are
    left out: the narrative generator's answer is an input here. *)
Definition generate (req : Request) (w : World) (userId : string)
    : JS.Outcome Response * list Report.Row :=
  match body req with
  | inl message => (JS.Throw message, [])
  | inr sessionId =>
    if negb (JS.truthyStr sessionId) then
      (JS.Throw "Session ID is required", [])
    else
      let sessionId := default "" sessionId in
      match selectSession w sessionId userId with
      | None => (JS.Throw "Session not found or access denied", [])
      | Some session =>
        if txQueryFails w then (JS.Throw "Failed to fetch transactions", [])
        else
          let transactions :=
            filter (λ t, Tx.session_id t = sessionId) (transactions w) in
          let fileName :=
            if JS.truthyStr (Session.file_name session)
            then default "" (Session.file_name session) else "Unknown" in
          let txIds := Tx.id <$> transactions in
          if raQueryFails w then
            (JS.Throw "Failed to fetch risk assessments", [])
          else
            let riskAssessments :=
              filter (λ ra, Ra.transaction_id ra ∈ txIds)
                     (risk_assessments w) in
            let totalTransactions := length transactions in
            let highRiskCount := countLevel "high" riskAssessments in
            let mediumRiskCount := countLevel "medium" riskAssessments in
            let lowRiskCount := countLevel "low" riskAssessments in
            match fetch w with
            | inl message => (JS.Throw message, [])
            | inr response =>
              if negb (Fetch.ok response) then
                if decide (Fetch.status response = 429) then
                  (JS.Ret (errorResponse 429
                     "Rate limit exceeded. Please try again in a moment."
                     None), [])
                else if decide (Fetch.status response = 402) then
                  (JS.Ret (errorResponse 402
                     "AI credits exhausted. Please add credits to continue."
                     None), [])
                else (JS.Throw "Failed to generate report", [])
              else
                match Fetch.json response with
                | inl message => (JS.Throw message, [])
                | inr JS.JNull =>
                    (JS.Throw (JS.nullPropertyError "choices"), [])
                | inr data =>
                  let content :=
                    JS.optProp "content"
                      (JS.optProp "message"
                         (JS.optIndex0 (JS.prop "choices" data))) in
                  if negb (JS.truthy content) then
                    (JS.Throw "No content in AI response", [])
                  else
                    match content with
                    | Some (JS.JStr s) =>
                      match JSON_parse (cleanContent s) with
                      | inl message => (JS.Throw message, [])
                      | inr JS.JNull =>
                          (JS.Throw
                             (JS.nullPropertyError "executive_summary"), [])
                      | inr report =>
                        let row :=
                          {| Report.session_id := sessionId;
                             Report.user_id := Session.user_id session;
                             Report.title := "Audit Report - " +:+ fileName;
                             Report.executive_summary :=
                               JS.prop "executive_summary" report;
                             Report.risk_posture :=
                               JS.prop "risk_posture" report;
                             Report.key_risk_themes :=
                               JS.prop "key_risk_themes" report;
                             Report.areas_of_attention :=
                               JS.prop "areas_of_attention" report;
                             Report.statistics :=
                               {| Report.total_transactions :=
                                    totalTransactions;
                                  Report.high_risk := highRiskCount;
                                  Report.medium_risk := mediumRiskCount;
                                  Report.low_risk := lowRiskCount;
                                  Report.total_amount :=
                                    totalAmount transactions |} |} in
                        if insertFails w then
                          (JS.Throw "Failed to save report", [])
                        else
                          (JS.Ret {| status := 200; error := None;
                                     retry_after := None;
                                     report := Some report;
                                     success := true |}, [row])
                      end
                    | _ => (JS.Throw "content.replace is not a function", [])
                    end
                end
            end
      end
  end.

Definition userSafeErrors : list string :=
  ["Session ID is required"; "Session not found or access denied"].

(** The [catch (error)] clause. *)
Definition onError (message : string) : Response :=
  let safeMessage :=
    if existsb (JS.includes message) userSafeErrors then message
    else "Report generation failed. Please try again." in
  errorResponse 500 safeMessage None.

(** [serve(async (req) => ...)]: the response, the rate-limit store and
    the rows written to [audit_reports]. *)
Definition serve (req : Request) (w : World)
    (rateLimitStore : gmap string RateLimit.Entry)
    : Response * gmap string RateLimit.Entry * list Report.Row :=
  if decide (method req = "OPTIONS") then
    ({| status := 200; error := None; retry_after := None;
        report := None; success := false |}, rateLimitStore, [])
  else
    match Authorization req with
    | Some authHeader =>
      if JS.startsWith authHeader "Bearer " then
        if negb (JS.truthyStr (LOVABLE_API_KEY w)) then
          (onError "Service configuration error", rateLimitStore, [])
        else if negb (JS.truthyStr (SUPABASE_URL w))
                || negb (JS.truthyStr (SUPABASE_ANON_KEY w))
                || negb (JS.truthyStr (SUPABASE_SERVICE_ROLE_KEY w)) then
          (onError "Service configuration error", rateLimitStore, [])
        else
          match getClaims w with
          | None =>
              (errorResponse 401 "Unauthorized: Invalid token" None,
               rateLimitStore, [])
          | Some userId =>
              match checkRateLimit (now w) userId rateLimitStore with
              | (RateLimit.Denied retryAfter, store') =>
                  (errorResponse 429
                     "Rate limit exceeded. Please try again later."
                     (Some retryAfter), store', [])
              | (RateLimit.Allowed, store') =>
                  let '(outcome, inserted) := generate req w userId in
                  (match outcome with
                   | JS.Ret response => response
                   | JS.Throw message => onError message
                   end, store', inserted)
              end
          end
      else
        (errorResponse 401
           "Unauthorized: Missing or invalid authorization header" None,
         rateLimitStore, [])
    | None =>
        (errorResponse 401
           "Unauthorized: Missing or invalid authorization header" None,
         rateLimitStore, [])
    end.
End Handler.

End GenerateAuditReport.

(** ** Arrays: [sort] and [slice] *)

Module JSArray.

Section Sort.
Context {A : Type}.
(** [compareFn(a, b)]: negative when [a] goes first, positive when [b]
    does. *)
Variable compareFn : A → A → Q.

(** [x] goes in front of the first element it does not have to follow. *)
Fixpoint insertSorted (x : A) (sorted : list A) : list A :=
  match sorted with
  | [] => [x]
  | y :: rest =>
      if JS.gt (compareFn x y) 0 then y :: insertSorted x rest
      else x :: sorted
  end.

(** [Array.prototype.sort(compareFn)], which is stable: for a consistent
    comparator it returns what a stable insertion sort returns. *)
Definition sort (l : list A) : list A := foldr insertSorted [] l.
End Sort.

(** [Array.prototype.slice(0, n)]. *)
Definition slice0 {A} (n : nat) (l : list A) : list A := take n l.

End JSArray.

(** ** The report-generation edge function: session statistics *)

Module Statistics.

(** Rows of [transactions] and [risk_assessments] with the columns the
    statistics read. [risk_factors] is [None] when the column does not hold
    an array; a factor is [None] when it has no [type]. *)
Module Tx.
Record Row := {
  id : string;
  vendor_name : option string;
  amount : option Q;
  department : option string;
}.
End Tx.

Module Ra.
Record Row := {
  transaction_id : string;
  risk_level : string;
  risk_score : option Q;
  risk_factors : option (list (option string));
}.
End Ra.

Record TopRiskFactor := { type : string; factorCount : nat }.
Record DeptData := { deptCount : nat; totalScore : Q }.
Record DepartmentBreakdown := {
  department : string;
  breakdownCount : nat;
  riskScore : Q;
}.

(** [x || fallback] for a string that may be absent. *)
Definition orString (x : option string) (fallback : string) : string :=
  match x with
  | Some s => if decide (s = "") then fallback else s
  | None => fallback
  end.






(** [factor?.type ? String(factor.type) : "unknown"]. *)
Definition factorKey (factor : option string) : string :=
  orString factor "unknown".

Definition addFactor (riskFactorMap : list (string * nat))
    (factor : option string) : list (string * nat) :=
  let key := factorKey factor in
  JS.Map_set key (default 0 (JS.Map_get key riskFactorMap) + 1) riskFactorMap.

(** [Array.isArray(ra.risk_factors) ? ra.risk_factors : []]. *)
Definition factorsOf (ra : Ra.Row) : list (option string) :=
  default [] (Ra.risk_factors ra).

Definition riskFactorMapOf (riskAssessments : list Ra.Row)
    : list (string * nat) :=
  foldl (λ m ra, foldl addFactor m (factorsOf ra)) [] riskAssessments.

Definition topRiskFactors (riskAssessments : list Ra.Row)
    : list TopRiskFactor :=
  JSArray.slice0 5
    (JSArray.sort
       (λ a b, inject_Z (Z.of_nat (factorCount b) - Z.of_nat (factorCount a)))
       ((λ '(type, count), {| type := type; factorCount := count |})
          <$> riskFactorMapOf riskAssessments)).

(** [raByTxId]: the last assessment stored under each transaction id. *)
Definition raByTxIdOf (riskAssessments : list Ra.Row)
    : list (string * Ra.Row) :=
  foldl (λ m ra, JS.Map_set (Ra.transaction_id ra) ra m) [] riskAssessments.

(** [ra?.risk_score ?? 0]. *)
Definition scoreOf (raByTxId : list (string * Ra.Row)) (t : Tx.Row) : Q :=
  match JS.Map_get (Tx.id t) raByTxId with
  | Some ra => default 0%Q (Ra.risk_score ra)
  | None => 0%Q
  end.

Definition addDept (raByTxId : list (string * Ra.Row))
    (deptMap : list (string * DeptData)) (t : Tx.Row)
    : list (string * DeptData) :=
  let dept := orString (Tx.department t) "Unknown" in
  let score := scoreOf raByTxId t in
  let existing :=
    default {| deptCount := 0; totalScore := 0 |} (JS.Map_get dept deptMap) in
  JS.Map_set dept
    {| deptCount := deptCount existing + 1;
       totalScore := (totalScore existing + score)%Q |}
    deptMap.

Definition deptMapOf (transactions : list Tx.Row)
    (riskAssessments : list Ra.Row) : list (string * DeptData) :=
  foldl (addDept (raByTxIdOf riskAssessments)) [] transactions.

Definition departmentBreakdown (transactions : list Tx.Row)
    (riskAssessments : list Ra.Row) : list DepartmentBreakdown :=
  JSArray.sort (λ a b, (riskScore b - riskScore a)%Q)
    ((λ '(department, data),
        {| department := department; breakdownCount := deptCount data;
           riskScore :=
             (totalScore data / inject_Z (Z.of_nat (deptCount data)))%Q |})
       <$> deptMapOf transactions riskAssessments).

End Statistics.


(** ** src/pages/TransactionDetail.tsx: the colours of a risk assessment *)

Module TransactionDetail.
Import AnalyzeTransactions.

(** [level: RiskLevel | undefined]. *)
Definition getRiskColor (level : option Level) : string :=
  match level with
  | Some low => "text-green-600"
  | Some medium => "text-yellow-600"
  | Some high => "text-red-600"
  | None => "text-muted-foreground"
  end.

Definition getRiskBgColor (level : option Level) : string :=
  match level with
  | Some low => "bg-green-100"
  | Some medium => "bg-yellow-100"
  | Some high => "bg-red-100"
  | None => "bg-muted"
  end.

(** [risk_score] is an INTEGER column checked to lie in 0..100. *)
Definition getProgressColor (score : nat) : string :=
  if score <? 34 then "bg-green-500"
  else if score <? 67 then "bg-yellow-500"
  else "bg-red-500".

End TransactionDetail.

(** ** src/pages/Upload.tsx: what a row must satisfy before it is stored *)

Module Upload.

(** [\d]. *)
Definition is_digit (c : ascii) : bool :=
  let n := nat_of_ascii c in (48 <=? n) && (n <=? 57).

Definition is_dash (c : ascii) : bool := bool_decide (c = "-"%char).

(** A string against a sequence of character classes, anchored at both
    ends. *)
Fixpoint matchClasses (classes : list (ascii → bool)) (s : string) : bool :=
  match classes, s with
  | [], EmptyString => true
  | p :: classes', String c s' => p c && matchClasses classes' s'
  | _, _ => false
  end.

(** [/^\d{4}-\d{2}-\d{2}$/.test(tx.transaction_date)]. *)
Definition isISODate (transaction_date : string) : bool :=
  matchClasses
    [is_digit; is_digit; is_digit; is_digit; is_dash;
     is_digit; is_digit; is_dash; is_digit; is_digit]
    transaction_date.

Definition MAX_TRANSACTIONS : Z := 10000.

(** [sanitizeCell]: a cell that a spreadsheet would read as a formula gets a
    leading single quote. *)
Definition dangerousPrefix (c : ascii) : bool :=
  bool_decide (c ∈ ["="; "+"; "-"; "@"; "009"; "013"]%char).

Definition sanitizeCell (value : string) : string :=
  match value with
  | EmptyString => value
  | String c _ => if dangerousPrefix c then String "'" value else value
  end.

(** [toText] on a cell that holds a string ([None]: an empty cell). *)
Definition toText (v : option string) : string :=
  sanitizeCell (match v with Some s => JS.trim s | None => "" end).

(** A number as [validateTransactions] may see it: finite, or one of [NaN],
    [Infinity], [-Infinity]. *)
Inductive Number :=
| Finite (q : Q)
| NotFinite.

Module Parsed.
Record Transaction := {
  transaction_id : string;
  transaction_date : string;
  amount : Number;
  vendor_name : string;
  vendor_country : string;
  payment_method : string;
  department : string;
  description : string;
}.
End Parsed.

(** [value === undefined || value === null || String(value).trim() === ''] on
    a string field. *)
Definition blankField (value : string) : bool :=
  bool_decide (JS.trim value = "").

(** The check of [REQUIRED_COLUMNS] on the first transaction; the text of a
    number is never blank. *)
Definition missingColumn (firstTx : Parsed.Transaction) : option string :=
  if blankField (Parsed.transaction_id firstTx)
  then Some "Missing required column: transaction_id"
  else if blankField (Parsed.transaction_date firstTx)
  then Some "Missing required column: transaction_date"
  else if blankField (Parsed.vendor_name firstTx)
  then Some "Missing required column: vendor_name"
  else None.

(** [!Number.isFinite(tx.amount) || tx.amount < 0]. *)
Definition invalidAmount (amount : Number) : bool :=
  match amount with
  | Finite q => negb (Qle_bool 0 q)
  | NotFinite => true
  end.

(** One turn of the loop over the rows, for the row of index [i]. *)
Definition rowError (i : nat) (tx : Parsed.Transaction) : option string :=
  if invalidAmount (Parsed.amount tx)
  then Some ("Invalid amount in row " +:+ pretty (i + 1))
  else if negb (isISODate (Parsed.transaction_date tx))
  then Some ("Invalid date format in row " +:+ pretty (i + 1)
             +:+ ". Expected YYYY-MM-DD")
  else if 500 <? String.length (Parsed.vendor_name tx)
  then Some ("Vendor name too long in row " +:+ pretty (i + 1)
             +:+ ". Maximum 500 characters")
  else if 2000 <? String.length (Parsed.description tx)
  then Some ("Description too long in row " +:+ pretty (i + 1)
             +:+ ". Maximum 2000 characters")
  else None.

Fixpoint rowsError (i : nat) (transactions : list Parsed.Transaction)
    : option string :=
  match transactions with
  | [] => None
  | tx :: rest =>
      match rowError i tx with
      | Some message => Some message
      | None => rowsError (S i) rest
      end
  end.

(** [validateTransactions]: the first complaint, or [None] for [null]. *)
Definition validateTransactions (transactions : list Parsed.Transaction)
    : option string :=
  match transactions with
  | [] => Some "No valid transactions found in file"
  | firstTx :: _ =>
      if (MAX_TRANSACTIONS <? Z.of_nat (length transactions))%Z
      then Some ("File contains too many transactions. Maximum allowed: "
                 +:+ pretty MAX_TRANSACTIONS)
      else
        match missingColumn firstTx with
        | Some message => Some message
        | None => rowsError 0 transactions
        end
  end.

(** The counts [handleUpload] writes to the session once the analysis has
    answered: high, medium, low. *)
Definition riskCounts (assessments : list AnalyzeTransactions.Assessment)
    : nat * nat * nat :=
  let count lvl :=
    length (filter (λ a, AnalyzeTransactions.risk_level a = lvl) assessments) in
  (count AnalyzeTransactions.high, count AnalyzeTransactions.medium,
   count AnalyzeTransactions.low).

(** *** The checks on the file itself *)

Definition MAX_FILE_SIZE : Z := 10 * 1024 * 1024.

Definition VALID_MIME_TYPES : list string :=
  [ "text/csv";
    "application/vnd.ms-excel";
    "application/vnd.openxmlformats-officedocument.spreadsheetml.sheet";
    "application/octet-stream" ].

Module File.
Record File := {
  name : string;
  size : Z;
  type : string;
}.
End File.

(** [String.prototype.split] at a one-character separator. *)
Fixpoint split (sep : ascii) (s : string) : list string :=
  match s with
  | EmptyString => [""]
  | String c s' =>
      if decide (c = sep) then "" :: split sep s'
      else match split sep s' with
           | seg :: segs => String c seg :: segs
           | [] => [String c ""]
           end
  end.

(** [String.prototype.toLowerCase]. *)
Definition lower_char (c : ascii) : ascii :=
  let n := nat_of_ascii c in
  if (65 <=? n)%nat && (n <=? 90)%nat then ascii_of_nat (n + 32) else c.

Fixpoint toLowerCase (s : string) : string :=
  match s with
  | String c s' => String (lower_char c) (toLowerCase s')
  | EmptyString => EmptyString
  end.

Definition validateMimeType (file : File.File) : bool :=
  if bool_decide (File.type file ≠ "")
     && negb (bool_decide (File.type file ∈ VALID_MIME_TYPES))
  then false
  else true.

(** [validateFile]: the complaint, or [None] for [null]. *)
Definition validateFile (file : File.File) : option string :=
  if (MAX_FILE_SIZE <? File.size file)%Z
  then Some ("File size exceeds maximum limit of "
             +:+ pretty (MAX_FILE_SIZE / (1024 * 1024))%Z +:+ "MB")
  else
    let extension := toLowerCase <$> last (split "." (File.name file)) in
    if match extension with
       | Some e => negb (bool_decide (e ≠ ""))
                   || negb (bool_decide (e ∈ ["csv"; "xlsx"; "xls"]))
       | None => true
       end
    then Some "Invalid file type. Only CSV and Excel files are accepted"
    else if negb (validateMimeType file)
    then Some "File content type does not match expected format"
    else None.

End Upload.

(** ** Vocabulary of the specification *)

Module Spec.
Import AnalyzeTransactions.

(** A batch as the store hands it over: [id] is the primary key of
    [transactions]. *)
Definition distinctIds (batch : list Transaction) : Prop :=
  NoDup (Tx.id <$> batch).


(** [t] has the normalised vendor name, the date and the amount in cents of
    [tx]. *)
Definition sameVendorDateAmount (tx t : Transaction) : Prop :=
  normVendor t = normVendor tx
  ∧ Tx.transaction_date t = Tx.transaction_date tx
  ∧ cents t = cents tx.

Global Instance sameVendorDateAmount_dec tx t :
  Decision (sameVendorDateAmount tx t).
Proof. unfold sameVendorDateAmount. apply _. Defined.

(** The duplicate group of [tx] in [batch]. *)
Definition duplicateGroup (batch : list Transaction) (tx : Transaction)
    : list Transaction :=
  filter (sameVendorDateAmount tx) batch.

(** The transactions of [batch] with the vendor and the date of [tx]. *)
Definition sameVendorDateGroup (batch : list Transaction) (tx : Transaction)
    : list Transaction :=
  filter (sameVendorSameDate (normVendor tx) (Tx.transaction_date tx)) batch.

(** A string of white space only. *)
Fixpoint allSpace (s : string) : bool :=
  match s with
  | String c s' => Ascii.is_space c && allSpace s'
  | EmptyString => true
  end.


(** The vendor-country rule's condition. *)
Definition riskyCountry (tx : Transaction) : Prop :=
  normCountry tx ∈ MEDIUM_RISK_COUNTRIES.


(** The ids [buildDuplicateGroups] files under [key]. *)
Definition idsOf (key : string) (batch : list Transaction) : list string :=
  Tx.id <$> filter (λ t, normVendor t ≠ "" ∧ groupKey t = key) batch.

(** [groups] is what the loop has built once it has read [processed]. *)
Definition groupsOf (groups : Groups) (processed : list Transaction) : Prop :=
  NoDup groups.*1 ∧
  ∀ key ids, (key, ids) ∈ groups ↔ ids = idsOf key processed ∧ ids ≠ [].

(** The two rate-limited entry points, with the limits the specification
    gives them: 10 analyses per hour, 20 reports per 24 hours. *)
Inductive Endpoint := Analysis | ReportGeneration.

Definition windowMs (e : Endpoint) : Z :=
  match e with
  | Analysis => 3600000
  | ReportGeneration => 86400000
  end%Z.

Definition ceiling (e : Endpoint) : nat :=
  match e with
  | Analysis => 10
  | ReportGeneration => 20
  end.

Definition check (e : Endpoint)
    : Z → string → gmap string RateLimit.Entry
      → RateLimit.Result * gmap string RateLimit.Entry :=
  match e with
  | Analysis => AnalyzeTransactions.checkRateLimit
  | ReportGeneration => GenerateAuditReport.checkRateLimit
  end.

(** One caller calling an entry point's limiter at the instants [times]. *)
Fixpoint calls (e : Endpoint) (times : list Z) (userId : string)
    (store : gmap string RateLimit.Entry)
    : list RateLimit.Result * gmap string RateLimit.Entry :=
  match times with
  | [] => ([], store)
  | now :: times' =>
      let '(r, store') := check e now userId store in
      let '(rs, store'') := calls e times' userId store' in
      (r :: rs, store'')
  end.

(** The answer to the request that finds [c] requests already counted in a
    window closing at [reset]. *)
Definition answer (MAX : nat) (reset : Z) (c : nat) (now : Z)
    : RateLimit.Result :=
  if bool_decide (c < MAX) then RateLimit.Allowed
  else RateLimit.Denied (JS.Math_ceil_div (reset - now) 1000).

(** The rule-based part of an assessment. *)
Definition deterministic (a : Assessment)
    : string * Level * nat * list RiskFactor * string * string :=
  (transaction_id a, risk_level a, risk_score a, risk_factors a,
   risk_reason a, triggered_rules a).

(** *** The narrative generator's answer *)




(** *** Requests that get past authentication and the rate limiter *)

Definition bearer (Authorization : option string) : Prop :=
  ∃ authHeader,
    Authorization = Some authHeader
    ∧ JS.startsWith authHeader "Bearer " = true.

Definition admittedToAnalysis (req : Request) (w : World)
    (store : gmap string RateLimit.Entry) (userId : string) : Prop :=
  method req ≠ "OPTIONS"
  ∧ bearer (Authorization req)
  ∧ JS.truthyStr (SUPABASE_URL w) = true
  ∧ JS.truthyStr (SUPABASE_ANON_KEY w) = true
  ∧ getClaims w = Some userId
  ∧ (checkRateLimit (now w) userId store).1 = RateLimit.Allowed.

Definition admittedToReport (req : GenerateAuditReport.Request)
    (w : GenerateAuditReport.World) (store : gmap string RateLimit.Entry)
    (userId : string) : Prop :=
  GenerateAuditReport.method req ≠ "OPTIONS"
  ∧ bearer (GenerateAuditReport.Authorization req)
  ∧ JS.truthyStr (GenerateAuditReport.LOVABLE_API_KEY w) = true
  ∧ JS.truthyStr (GenerateAuditReport.SUPABASE_URL w) = true
  ∧ JS.truthyStr (GenerateAuditReport.SUPABASE_ANON_KEY w) = true
  ∧ JS.truthyStr (GenerateAuditReport.SUPABASE_SERVICE_ROLE_KEY w) = true
  ∧ GenerateAuditReport.getClaims w = Some userId
  ∧ (GenerateAuditReport.checkRateLimit (GenerateAuditReport.now w) userId
       store).1 = RateLimit.Allowed.

(** No session with this id belongs to this caller: the id is unknown, or
    it is another caller's. *)
Definition notOwnSession (w : GenerateAuditReport.World)
    (sessionId userId : string) : Prop :=
  ∀ session, session ∈ GenerateAuditReport.analysis_sessions w →
    GenerateAuditReport.Session.id session = sessionId →
    GenerateAuditReport.Session.user_id session ≠ userId.

(** *** Sums and sorted tables of the session statistics *)

(** The sum of a list of numbers, from the left as [forEach] adds them. *)
Definition Qsum (l : list Q) : Q := foldl Qplus 0%Q l.

Global Instance Qeq_decision (x y : Q) : Decision (x == y)%Q := Qeq_dec x y.
Global Instance Qle_decision (x y : Q) : Decision (x <= y)%Q.
Proof.
  destruct (Qlt_le_dec y x) as [H|H]; [right|left; exact H].
  intros Hle. exact (Qlt_not_le _ _ H Hle).
Defined.

(** A [Map] filled by one [forEach] that reads the entry of an item's key
    (or [d] when there is none) and writes it back updated. *)
Definition aggregate {T V : Type} (keyOf : T → string) (upd : V → T → V)
    (d : V) (m : list (string * V)) (t : T) : list (string * V) :=
  JS.Map_set (keyOf t) (upd (default d (JS.Map_get (keyOf t) m)) t) m.

(** [t.department || "Unknown"]. *)
Definition deptOf (t : Statistics.Tx.Row) : string :=
  Statistics.orString (Statistics.Tx.department t) "Unknown".


(** A row of the upload that [validateTransactions] has nothing to say
    about. *)
Definition validRow (tx : Upload.Parsed.Transaction) : Prop :=
  (∃ q, Upload.Parsed.amount tx = Upload.Finite q ∧ (0 <= q)%Q)
  ∧ Upload.isISODate (Upload.Parsed.transaction_date tx) = true
  ∧ String.length (Upload.Parsed.vendor_name tx) ≤ 500
  ∧ String.length (Upload.Parsed.description tx) ≤ 2000.



(** A cell that a spreadsheet would read as a formula. *)
Definition formulaLike (value : string) : bool :=
  match value with
  | String c _ => Upload.dangerousPrefix c
  | EmptyString => false
  end.

(** No dot in a string. *)
Fixpoint dotFree (s : string) : Prop :=
  match s with
  | String c s' => c ≠ "."%char ∧ dotFree s'
  | EmptyString => True
  end.

(** The colour a tier is shown in. *)
Definition hue (lvl : Level) : string :=
  match lvl with
  | low => "green"
  | medium => "yellow"
  | high => "red"
  end.

End Spec.

(** ** Sample data *)

Module Sample.
Import AnalyzeTransactions.

Definition tx (id : string) (vendor : option string) (date : string)
    (amount : Q) (country : option string) : Transaction :=
  {| Tx.id := id; Tx.transaction_id := "TXN-" +:+ id;
     Tx.transaction_date := date; Tx.amount := amount;
     Tx.vendor_name := vendor; Tx.vendor_country := country;
     Tx.payment_method := "Wire"; Tx.department := "Finance";
     Tx.description := "" |}.

(** Two payments that differ in the spelling of the vendor only, large
    enough for rule 2 and to a listed country. *)
Definition acme1 : Transaction :=
  tx "a1" (Some " Acme ") "2024-03-01" 2000000 (Some "Panama").
Definition acme2 : Transaction :=
  tx "a2" (Some "ACME") "2024-03-01" 2000000 (Some "India").

(** Two payments to one vendor on one day, of different amounts. *)
Definition globex1 : Transaction :=
  tx "g1" (Some "Globex") "2024-03-02" 100 (Some "India").


(** One payment per band of rule 2. *)
Definition large : Transaction :=
  tx "l1" (Some "Initech") "2024-03-04" (100000001 # 100) (Some "India").
Definition million : Transaction :=
  tx "m1" (Some "Initech") "2024-03-05" 1000000 (Some "India").
Definition half : Transaction :=
  tx "h1" (Some "Initech") "2024-03-07" 500000 (Some "India").
Definition small : Transaction :=
  tx "s1" (Some "Initech") "2024-03-06" 499999 (Some "India").

Definition plain : Q → string := λ _, "".

(** A runtime whose [JSON.parse] rejects every text and whose [replace]
    finds no match. *)
Definition noJson : string → string + JS.Json := λ _, inl "Unexpected token".
Definition noFence : string → string → string := λ _ s, s.

Definition analysisRequest : Request :=
  {| method := "POST"; Authorization := Some "Bearer token";
     body := inr {| transactions := Some [acme1; acme2];
                    sessionId := "s1" |} |}.

(** The narrative generator answers 402, then 503, then prose. *)
Definition analysisWorld (status : nat) (json : string + JS.Json) : World :=
  {| SUPABASE_URL := Some "https://db"; SUPABASE_ANON_KEY := Some "anon";
     LOVABLE_API_KEY := Some "key"; getClaims := Some "user-1"; now := 0%Z;
     fetch := inr {| Fetch.status := status; Fetch.json := json |} |}.

Definition prose : JS.Json :=
  JS.JObj [("choices",
            JS.JArr [JS.JObj [("message",
                               JS.JObj [("content", JS.JStr "Sorry.")])]])].

Definition reportRequest : GenerateAuditReport.Request :=
  {| GenerateAuditReport.method := "POST";
     GenerateAuditReport.Authorization := Some "Bearer token";
     GenerateAuditReport.body := inr (Some "s1") |}.

(** A store in which session [s1] belongs to [owner]. *)
Definition reportWorld (owner : string) (status : nat)
    : GenerateAuditReport.World :=
  {| GenerateAuditReport.LOVABLE_API_KEY := Some "key";
     GenerateAuditReport.SUPABASE_URL := Some "https://db";
     GenerateAuditReport.SUPABASE_ANON_KEY := Some "anon";
     GenerateAuditReport.SUPABASE_SERVICE_ROLE_KEY := Some "service";
     GenerateAuditReport.getClaims := Some "user-1";
     GenerateAuditReport.now := 0%Z;
     GenerateAuditReport.analysis_sessions :=
       [ {| GenerateAuditReport.Session.id := "s1";
            GenerateAuditReport.Session.user_id := owner;
            GenerateAuditReport.Session.file_name := Some "march.csv" |} ];
     GenerateAuditReport.transactions := [];
     GenerateAuditReport.risk_assessments := [];
     GenerateAuditReport.sessionQueryFails := false;
     GenerateAuditReport.txQueryFails := false;
     GenerateAuditReport.raQueryFails := false;
     GenerateAuditReport.insertFails := false;
     GenerateAuditReport.fetch :=
       inr {| GenerateAuditReport.Fetch.status := status;
              GenerateAuditReport.Fetch.json := inr prose |} |}.


(** A payment to the Emirates, spelt out in small letters. *)
Definition gulf : Transaction :=
  tx "e1" (Some "Gulf Air") "2024-03-08" 100
    (Some " united arab emirates ").

Definition requestOf (batch : option (list Transaction)) : Request :=
  {| method := "POST"; Authorization := Some "Bearer token";
     body := inr {| transactions := batch; sessionId := "s1" |} |}.

(** A world in which the narrative generator cannot be reached. *)
Definition offlineWorld : World :=
  {| SUPABASE_URL := Some "https://db"; SUPABASE_ANON_KEY := Some "anon";
     LOVABLE_API_KEY := Some "key"; getClaims := Some "user-1"; now := 0%Z;
     fetch := inl "connect ECONNREFUSED 10.0.0.7:443" |}.

(** A caller who has used up the window that ends at 5000. *)
Definition spent (ceiling : nat) : gmap string RateLimit.Entry :=
  {[ "user-1" := {| RateLimit.count := ceiling;
                    RateLimit.resetTime := 5000%Z |} ]}.

(** Two rows of an upload, the second with a date as the sheet wrote it. *)
Definition row (id date : string) (amount : Q) : Upload.Parsed.Transaction :=
  {| Upload.Parsed.transaction_id := id;
     Upload.Parsed.transaction_date := date;
     Upload.Parsed.amount := Upload.Finite amount;
     Upload.Parsed.vendor_name := "Acme";
     Upload.Parsed.vendor_country := "India";
     Upload.Parsed.payment_method := "Wire";
     Upload.Parsed.department := "Finance";
     Upload.Parsed.description := "" |}.
Definition row1 : Upload.Parsed.Transaction := row "TXN-1" "2024-03-01" 100.
Definition row2 : Upload.Parsed.Transaction := row "TXN-2" "03/02/2024" 250.

Definition sheet : Upload.File.File :=
  {| Upload.File.name := "March.Report.XLSX"; Upload.File.size := 2048%Z;
     Upload.File.type := "" |}.

(** The same payment with the columns the rules do not read blanked. *)
Definition redact (t : Transaction) : Transaction :=
  {| Tx.id := Tx.id t; Tx.transaction_id := "";
     Tx.transaction_date := Tx.transaction_date t; Tx.amount := Tx.amount t;
     Tx.vendor_name := Tx.vendor_name t;
     Tx.vendor_country := Tx.vendor_country t;
     Tx.payment_method := ""; Tx.department := ""; Tx.description := "" |}.

End Sample.

(** ** Numbers and strings *)

Section JSFacts.

Lemma orZero_Qeq x : (JS.orZero x == x)%Q.
Proof.
  unfold JS.orZero. destruct (Qeq_bool x 0) eqn:E; [|reflexivity].
  apply Qeq_bool_eq in E. now symmetry.
Qed.

Lemma gt_spec x y : JS.gt x y = true ↔ (y < x)%Q.
Proof.
  unfold JS.gt. rewrite negb_true_iff. split.
  - intros E. apply Qnot_le_lt. intros Hle.
    apply Qle_bool_iff in Hle. congruence.
  - intros Hlt. destruct (Qle_bool x y) eqn:E; [|reflexivity].
    apply Qle_bool_iff in E. exfalso. eapply Qlt_not_le; eauto.
Qed.

Lemma gt_false x y : JS.gt x y = false ↔ (x <= y)%Q.
Proof.
  unfold JS.gt. rewrite negb_false_iff. apply Qle_bool_iff.
Qed.

Lemma ge_spec x y : JS.ge x y = true ↔ (y <= x)%Q.
Proof. apply Qle_bool_iff. Qed.

Lemma le_spec x y : JS.le x y = true ↔ (x <= y)%Q.
Proof. apply Qle_bool_iff. Qed.

Lemma ge_false x y : JS.ge x y = false ↔ (x < y)%Q.
Proof.
  unfold JS.ge. split.
  - intros E. apply Qnot_le_lt. intros Hle.
    apply Qle_bool_iff in Hle. congruence.
  - intros Hlt. destruct (Qle_bool y x) eqn:E; [|reflexivity].
    apply Qle_bool_iff in E. exfalso. eapply Qlt_not_le; eauto.
Qed.



End JSFacts.

(** ** The group key determines vendor, date and cents *)

Section GroupKey.
Import AnalyzeTransactions Spec.

Lemma app_cons c s t : String c s +:+ t = String c (s +:+ t).
Proof. reflexivity. Qed.

Lemma app_empty s : "" +:+ s = s.
Proof. reflexivity. Qed.










End GroupKey.

(** ** The map built by [buildDuplicateGroups] *)

Section Groups.
Import AnalyzeTransactions Spec.

Lemma Map_get_None {V} k (m : list (string * V)) :
  JS.Map_get k m = None ↔ k ∉ m.*1.
Proof.
  induction m as [|[k' v] m IH]; csimpl.
  - split; [intros _; apply not_elem_of_nil|done].
  - rewrite not_elem_of_cons. case_decide; naive_solver.
Qed.

Lemma Map_get_Some {V} k v (m : list (string * V)) :
  NoDup m.*1 → JS.Map_get k m = Some v ↔ (k, v) ∈ m.
Proof.
  induction m as [|[k' v'] m IH]; csimpl; intros Hnd.
  - split; [done|]. by intros ?%elem_of_nil.
  - apply NoDup_cons in Hnd as [Hk' Hnd]. rewrite elem_of_cons.
    case_decide as Hk.
    + subst k'. split; [naive_solver|]. intros [[= ->]|Hin]; [done|].
      exfalso. apply Hk'. apply list_elem_of_fmap. by exists (k, v).
    + rewrite IH by done. naive_solver.
Qed.

Lemma Map_set_keys {V} k v (m : list (string * V)) :
  (JS.Map_set k v m).*1 = if decide (k ∈ m.*1) then m.*1 else m.*1 ++ [k].
Proof.
  induction m as [|[k' v'] m IH]; csimpl; [done|].
  destruct (decide (k' = k)) as [->|Hk]; csimpl.
  - destruct (decide (k ∈ k :: m.*1)) as [H|H]; [done|].
    exfalso. apply H. left.
  - rewrite IH. destruct (decide (k ∈ m.*1)) as [Hin|Hin];
      destruct (decide (k ∈ k' :: m.*1)) as [H|H]; try done.
    + exfalso. apply H. by right.
    + apply elem_of_cons in H. naive_solver.
Qed.

Lemma Map_set_NoDup {V} k v (m : list (string * V)) :
  NoDup m.*1 → NoDup (JS.Map_set k v m).*1.
Proof.
  intros Hnd. rewrite Map_set_keys. case_decide; [done|].
  apply NoDup_app. split_and!; [done| |apply NoDup_singleton].
  intros x Hx ->%list_elem_of_singleton. done.
Qed.

Lemma elem_of_Map_set {V} k v k' v' (m : list (string * V)) :
  NoDup m.*1 →
  (k', v') ∈ JS.Map_set k v m ↔ (k' = k ∧ v' = v) ∨ (k' ≠ k ∧ (k', v') ∈ m).
Proof.
  induction m as [|[k0 v0] m IH]; csimpl; intros Hnd.
  - rewrite list_elem_of_singleton. split; [naive_solver|].
    intros [[-> ->]|[_ H]]; [done|]. by apply elem_of_nil in H.
  - apply NoDup_cons in Hnd as [Hk0 Hnd].
    destruct (decide (k0 = k)) as [->|Hk]; rewrite !elem_of_cons.
    + split.
      * intros [[= -> ->]|Hin]; [by left|]. right. split; [|by right].
        intros ->. apply Hk0. apply list_elem_of_fmap. by exists (k, v').
      * intros [[-> ->]|[Hne [[= -> ->]|Hin]]]; [by left|done|by right].
    + rewrite IH by done. naive_solver.
Qed.

Lemma idsOf_snoc key batch tx :
  idsOf key (batch ++ [tx]) =
  idsOf key batch ++
    (if decide (normVendor tx ≠ "" ∧ groupKey tx = key) then [Tx.id tx] else []).
Proof.
  unfold idsOf. rewrite filter_app, fmap_app. f_equal.
  rewrite filter_cons, filter_nil. by case_decide.
Qed.

Lemma groupsOf_get groups processed key :
  groupsOf groups processed →
  default [] (JS.Map_get key groups) = idsOf key processed.
Proof.
  intros [Hnd Hg]. destruct (JS.Map_get key groups) as [ids|] eqn:E; simpl.
  - apply Map_get_Some in E; [|done]. by apply Hg in E as [-> _].
  - destruct (idsOf key processed) as [|i ids] eqn:Eids; [done|].
    apply Map_get_None in E. exfalso. apply E.
    apply list_elem_of_fmap. exists (key, i :: ids). split; [done|].
    apply Hg. by rewrite Eids.
Qed.

Lemma addToGroups_groupsOf groups processed tx :
  groupsOf groups processed →
  groupsOf (addToGroups groups tx) (processed ++ [tx]).
Proof.
  intros Hinv. pose proof Hinv as [Hnd Hg]. unfold addToGroups.
  destruct (decide (normVendor tx = "")) as [Hv|Hv].
  - split; [done|]. intros key ids. rewrite Hg, idsOf_snoc.
    rewrite decide_False by naive_solver. by rewrite app_nil_r.
  - split; [by apply Map_set_NoDup|]. intros key ids.
    rewrite elem_of_Map_set by done.
    rewrite (groupsOf_get _ processed) by done.
    rewrite idsOf_snoc. destruct (decide (key = groupKey tx)) as [->|Hk].
    + rewrite decide_True by done. split.
      * intros [[_ ->]|[? _]]; [|done]. split; [done|].
        by destruct (idsOf (groupKey tx) processed).
      * intros [-> _]. by left.
    + rewrite decide_False by naive_solver. rewrite app_nil_r, Hg.
      naive_solver.
Qed.

Lemma foldl_addToGroups_groupsOf rest groups processed :
  groupsOf groups processed →
  groupsOf (foldl addToGroups groups rest) (processed ++ rest).
Proof.
  revert groups processed.
  induction rest as [|tx rest IH]; intros groups processed Hinv; simpl.
  - by rewrite app_nil_r.
  - rewrite (cons_middle tx), app_assoc. apply IH.
    by apply addToGroups_groupsOf.
Qed.

Lemma buildDuplicateGroups_groupsOf batch :
  groupsOf (buildDuplicateGroups batch) batch.
Proof.
  apply (foldl_addToGroups_groupsOf batch [] []). split; [constructor|].
  intros key ids. split; [by intros ?%elem_of_nil|]. by intros [-> ?].
Qed.

(** [isDuplicate] reports the first group of more than one id holding
    [txId]. *)
Lemma isDuplicate_found txId ids (groups : Groups) :
  (∀ key ids', (key, ids') ∈ groups → txId ∈ ids' → ids' = ids) →
  (∃ key, (key, ids) ∈ groups) → txId ∈ ids → 1 < length ids →
  isDuplicate txId groups = (true, length ids).
Proof.
  intros Huniq [key Hin] Hid Hlen.
  induction groups as [|[k0 ids0] groups IH]; simpl.
  - by apply elem_of_nil in Hin.
  - destruct (decide (txId ∈ ids0)) as [H0|H0].
    + assert (ids0 = ids) as -> by (eapply Huniq; [left|done]).
      rewrite bool_decide_eq_true_2 by done.
      by apply Nat.ltb_lt in Hlen as ->.
    + rewrite bool_decide_eq_false_2 by done. simpl. apply IH.
      * intros k ids' Hk. apply (Huniq k). by right.
      * apply elem_of_cons in Hin as [[= -> ->]|Hin]; done.
Qed.

Lemma isDuplicate_not_found txId (groups : Groups) :
  (∀ key ids, (key, ids) ∈ groups → txId ∈ ids → length ids ≤ 1) →
  isDuplicate txId groups = (false, 0).
Proof.
  induction groups as [|[k0 ids0] groups IH]; simpl; intros H; [done|].
  destruct (bool_decide (txId ∈ ids0)) eqn:E; simpl.
  - apply bool_decide_eq_true in E.
    assert (length ids0 ≤ 1) as Hle by (eapply H; [left|done]).
    apply Nat.ltb_ge in Hle as ->. apply IH.
    intros k ids Hk. apply (H k). by right.
  - apply IH. intros k ids Hk. apply (H k). by right.
Qed.

Lemma distinctIds_eq batch (t tx : Transaction) :
  distinctIds batch → t ∈ batch → tx ∈ batch → Tx.id t = Tx.id tx → t = tx.
Proof.
  unfold distinctIds. induction batch as [|x batch IH]; csimpl.
  - by intros _ ?%elem_of_nil.
  - intros [Hx Hnd]%NoDup_cons Ht Htx E.
    apply elem_of_cons in Ht as [->|Ht]; apply elem_of_cons in Htx as [->|Htx].
    + done.
    + exfalso. apply Hx. rewrite E. by apply list_elem_of_fmap_2.
    + exfalso. apply Hx. rewrite <-E. by apply list_elem_of_fmap_2.
    + by apply IH.
Qed.

Lemma elem_of_idsOf key batch tx :
  distinctIds batch → tx ∈ batch →
  Tx.id tx ∈ idsOf key batch ↔ normVendor tx ≠ "" ∧ groupKey tx = key.
Proof.
  intros Hnd Htx. unfold idsOf. rewrite list_elem_of_fmap. split.
  - intros (t & E & [Ht Hin]%list_elem_of_filter).
    by rewrite (distinctIds_eq batch tx t).
  - intros H. exists tx. split; [done|]. by apply list_elem_of_filter.
Qed.

(** Rule 1 on a batch whose ids are distinct: a transaction is a duplicate
    exactly when its own group has more than one id, and the count is the
    size of that group. *)
Lemma isDuplicate_buildDuplicateGroups batch tx :
  distinctIds batch → tx ∈ batch →
  isDuplicate (Tx.id tx) (buildDuplicateGroups batch) =
    if bool_decide (normVendor tx ≠ "")
       && (1 <? length (idsOf (groupKey tx) batch))
    then (true, length (idsOf (groupKey tx) batch))
    else (false, 0).
Proof.
  intros Hnd Htx.
  destruct (buildDuplicateGroups_groupsOf batch) as [Hkeys Hg].
  destruct (bool_decide (normVendor tx ≠ "")) eqn:Hv; simpl;
    [destruct (1 <? length (idsOf (groupKey tx) batch)) eqn:Hlen|].
  - apply bool_decide_eq_true in Hv. apply Nat.ltb_lt in Hlen.
    apply isDuplicate_found; [| |by apply elem_of_idsOf|done].
    + intros key ids' [-> _]%Hg [_ <-]%elem_of_idsOf; done.
    + exists (groupKey tx). apply Hg. split; [done|].
      intros E. rewrite E in Hlen. simpl in Hlen. lia.
  - apply Nat.ltb_ge in Hlen. apply isDuplicate_not_found.
    intros key ids [-> _]%Hg [_ <-]%elem_of_idsOf; done.
  - apply bool_decide_eq_false in Hv. apply isDuplicate_not_found.
    intros key ids [-> _]%Hg [? _]%elem_of_idsOf; done.
Qed.


Lemma idsOf_Permutation key batch batch' :
  batch ≡ₚ batch' → length (idsOf key batch) = length (idsOf key batch').
Proof.
  intros Hp. unfold idsOf. rewrite !length_fmap. by rewrite Hp.
Qed.

End Groups.

(** ** The rule chain *)

Section RuleChain.
Import AnalyzeTransactions Spec.
Variable toLocaleString : Q → string.

Local Abbreviation analyze := (analyzeTransaction toLocaleString).


(** The chain below rule 1, as equations on the amount. *)
Lemma analyze_high tx all groups :
  (isDuplicate (Tx.id tx) groups).1 = false →
  (1000000 < Tx.amount tx)%Q →
  analyze tx all groups = highValueResult toLocaleString (JS.orZero (Tx.amount tx)).
Proof.
  intros Hdup Hamt. unfold analyzeTransaction.
  destruct (isDuplicate _ _) as [isDup n]; simpl in Hdup; subst isDup.
  assert (JS.gt (JS.orZero (Tx.amount tx)) 1000000 = true) as ->; [|done].
  apply gt_spec. by rewrite orZero_Qeq.
Qed.

Lemma analyze_medium tx all groups :
  (isDuplicate (Tx.id tx) groups).1 = false →
  (500000 <= Tx.amount tx)%Q → (Tx.amount tx <= 1000000)%Q →
  analyze tx all groups
  = mediumValueResult toLocaleString (JS.orZero (Tx.amount tx)).
Proof.
  intros Hdup Hlo Hhi. unfold analyzeTransaction.
  destruct (isDuplicate _ _) as [isDup n]; simpl in Hdup; subst isDup.
  assert (JS.gt (JS.orZero (Tx.amount tx)) 1000000 = false) as ->.
  { apply gt_false. by rewrite orZero_Qeq. }
  assert (JS.ge (JS.orZero (Tx.amount tx)) 500000 = true) as ->.
  { apply ge_spec. by rewrite orZero_Qeq. }
  assert (JS.le (JS.orZero (Tx.amount tx)) 1000000 = true) as ->; [|done].
  apply le_spec. by rewrite orZero_Qeq.
Qed.

Lemma analyze_below tx all groups :
  (isDuplicate (Tx.id tx) groups).1 = false →
  (Tx.amount tx < 500000)%Q →
  analyze tx all groups =
    if bool_decide (riskyCountry tx)
    then vendorCountryResult (normCountry tx)
    else if bool_decide (normVendor tx ≠ "")
            && (1 <? length (sameVendorDateGroup all tx))
    then frequencyResult (length (sameVendorDateGroup all tx))
    else lowResult.
Proof.
  intros Hdup Hamt. unfold analyzeTransaction.
  destruct (isDuplicate _ _) as [isDup n]; simpl in Hdup; subst isDup.
  assert (JS.gt (JS.orZero (Tx.amount tx)) 1000000 = false) as ->.
  { apply gt_false. rewrite orZero_Qeq. apply Qlt_le_weak.
    eapply Qlt_trans; [exact Hamt|]. reflexivity. }
  assert (JS.ge (JS.orZero (Tx.amount tx)) 500000 = false) as ->.
  { apply ge_false. by rewrite orZero_Qeq. }
  simpl. unfold riskyCountry, sameVendorDateGroup.
  destruct (bool_decide (normCountry tx ∈ MEDIUM_RISK_COUNTRIES)) eqn:Hc.
  - apply bool_decide_eq_true in Hc.
    assert (normCountry tx ≠ "") as Hne.
    { intros E. rewrite E in Hc. unfold MEDIUM_RISK_COUNTRIES in Hc.
      apply list_elem_of_In in Hc. simpl in Hc.
      destruct Hc as [Hc|[Hc|[]]]; discriminate. }
    by rewrite (bool_decide_eq_true_2 _ Hne).
  - rewrite andb_false_r. by destruct (bool_decide (normVendor tx ≠ "")).
Qed.


(** C4: every result of the rule chain is one of its six outcomes; it is
    low exactly when it has no factor, a low result scores 0, and any other
    result carries exactly one factor; the assessment the handler builds
    from it inherits all three. *)
Theorem C4_single_outcome tx all groups :
  let r := analyze tx all groups in
  ((∃ n, r = duplicateResult n)
   ∨ (∃ a, r = highValueResult toLocaleString a)
   ∨ (∃ a, r = mediumValueResult toLocaleString a)
   ∨ (∃ c, r = vendorCountryResult c)
   ∨ (∃ n, r = frequencyResult n)
   ∨ r = lowResult)
  ∧ (level r = low ↔ factors r = [])
  ∧ (level r = low → score r = 0)
  ∧ (level r ≠ low → length (factors r) = 1)
  ∧ (let a := assess toLocaleString all groups tx in
     (risk_level a = low ↔ risk_factors a = [])
     ∧ (risk_level a = low → risk_score a = 0)
     ∧ (risk_level a ≠ low → length (risk_factors a) = 1)).
Proof.
  intros r.
  assert ((∃ n, r = duplicateResult n)
   ∨ (∃ a, r = highValueResult toLocaleString a)
   ∨ (∃ a, r = mediumValueResult toLocaleString a)
   ∨ (∃ c, r = vendorCountryResult c)
   ∨ (∃ n, r = frequencyResult n)
   ∨ r = lowResult) as Hr.
  { subst r. unfold analyzeTransaction.
    destruct (isDuplicate _ _) as [[] n]; [eauto|].
    destruct (JS.gt _ _); [eauto 6|].
    destruct (_ && _); [eauto 6|].
    destruct (_ && _); [eauto 6|].
    destruct (bool_decide _); [|eauto 10].
    destruct (_ <? _); eauto 10. }
  split; [exact Hr|]. unfold assess. fold r. simpl.
  destruct Hr as [[n ->]|[[a ->]|[[a ->]|[[c ->]|[[n ->]| ->]]]]]; simpl;
    repeat split; done.
Qed.

(** C2: for a transaction that is in no duplicate group, an amount above
    1,000,000 gives HIGH with score 85, an amount from 500,000 to 1,000,000
    (both bounds included) gives MEDIUM with score 60, and below 500,000 the
    high-value rule stays silent: the result is that of the vendor-country
    rule, else of the frequency rule, else LOW. *)
Theorem C2_high_value_bands tx all groups :
  (isDuplicate (Tx.id tx) groups).1 = false →
  let r := analyze tx all groups in
  ((1000000 < Tx.amount tx)%Q →
     level r = high ∧ score r = 85
     ∧ type <$> factors r = ["high_value_transaction"]
     ∧ why r = "Rule 2 triggered: Amount > 1,000,000")
  ∧ ((500000 <= Tx.amount tx)%Q → (Tx.amount tx <= 1000000)%Q →
     level r = medium ∧ score r = 60
     ∧ type <$> factors r = ["high_value_transaction"]
     ∧ why r = "Rule 2 triggered: Amount between 500,000 and 1,000,000")
  ∧ ((Tx.amount tx < 500000)%Q →
     (∀ f, f ∈ factors r → type f ≠ "high_value_transaction")
     ∧ r = if bool_decide (riskyCountry tx)
           then vendorCountryResult (normCountry tx)
           else if bool_decide (normVendor tx ≠ "")
                   && (1 <? length (sameVendorDateGroup all tx))
           then frequencyResult (length (sameVendorDateGroup all tx))
           else lowResult).
Proof.
  intros Hdup r. split_and!.
  - intros H. subst r. by rewrite analyze_high.
  - intros H1 H2. subst r. by rewrite analyze_medium.
  - intros H. subst r. rewrite analyze_below by done. split; [|done].
    intros f. repeat case_match; simpl;
      rewrite ?elem_of_nil, ?list_elem_of_singleton; try done;
      by intros ->.
Qed.



(** C5: on a batch of distinct ids, reordering the batch changes neither
    what rule 1 finds for a transaction, nor the count rule 4 uses, nor the
    result of the chain for it. *)
Theorem C5_order_independent batch batch' tx :
  distinctIds batch → batch ≡ₚ batch' → tx ∈ batch →
  isDuplicate (Tx.id tx) (buildDuplicateGroups batch')
  = isDuplicate (Tx.id tx) (buildDuplicateGroups batch)
  ∧ length (sameVendorDateGroup batch' tx)
    = length (sameVendorDateGroup batch tx)
  ∧ evaluate toLocaleString batch' tx = evaluate toLocaleString batch tx.
Proof.
  intros Hids Hp Htx.
  assert (distinctIds batch') as Hids'.
  { unfold distinctIds in *. by rewrite <-Hp. }
  assert (tx ∈ batch') as Htx' by (by rewrite <-Hp).
  assert (isDuplicate (Tx.id tx) (buildDuplicateGroups batch')
          = isDuplicate (Tx.id tx) (buildDuplicateGroups batch)) as Hdup.
  { rewrite !isDuplicate_buildDuplicateGroups by done.
    by rewrite (idsOf_Permutation _ _ _ Hp). }
  assert (length (sameVendorDateGroup batch' tx)
          = length (sameVendorDateGroup batch tx)) as Hfreq.
  { unfold sameVendorDateGroup. by rewrite Hp. }
  split_and!; [done..|].
  unfold evaluate, analyzeTransaction. rewrite Hdup.
  unfold sameVendorDateGroup in Hfreq. by rewrite Hfreq.
Qed.


End RuleChain.

(** *** The rule chain at sample batches *)

Section RuleChainSamples.
Import AnalyzeTransactions Spec.

(** Why the ids of a batch have to be distinct: [isDuplicate] looks a
    transaction up by its id and stops at the first group that holds it.
    Here the id of a member of a group of three also sits in an earlier
    group of two. *)
Example repeated_id_first_group :
  let again := Sample.tx "a1" (Some "Globex") "2024-03-02" 100 None in
  let batch := [Sample.acme1; Sample.acme2; again; Sample.globex1;
                Sample.tx "g3" (Some "GLOBEX") "2024-03-02" 100 None] in
  length (duplicateGroup batch again) = 3
  ∧ isDuplicate (Tx.id again) (buildDuplicateGroups batch) = (true, 2).
Proof. split; reflexivity. Qed.


Lemma C2_high_value_bands_witness :
  let r1 := evaluate Sample.plain [Sample.large] Sample.large in
  let r2 := evaluate Sample.plain [Sample.million] Sample.million in
  let r3 := evaluate Sample.plain [Sample.half] Sample.half in
  let r4 := evaluate Sample.plain [Sample.small] Sample.small in
  (level r1 = high ∧ score r1 = 85)
  ∧ (level r2 = medium ∧ score r2 = 60)
  ∧ (level r3 = medium ∧ score r3 = 60)
  ∧ r4 = lowResult.
Proof.
  intros r1 r2 r3 r4.
  destruct (C2_high_value_bands Sample.plain Sample.large [Sample.large]
              (buildDuplicateGroups [Sample.large]) eq_refl)
    as (H1 & _ & _).
  destruct (C2_high_value_bands Sample.plain Sample.million [Sample.million]
              (buildDuplicateGroups [Sample.million]) eq_refl)
    as (_ & H2 & _).
  destruct (C2_high_value_bands Sample.plain Sample.half [Sample.half]
              (buildDuplicateGroups [Sample.half]) eq_refl)
    as (_ & H3 & _).
  destruct (C2_high_value_bands Sample.plain Sample.small [Sample.small]
              (buildDuplicateGroups [Sample.small]) eq_refl)
    as (_ & _ & H4).
  destruct H1 as (Hl1 & Hs1 & _); [reflexivity|].
  destruct H2 as (Hl2 & Hs2 & _); [discriminate..|].
  destruct H3 as (Hl3 & Hs3 & _); [discriminate..|].
  destruct H4 as (_ & Hr4); [reflexivity|].
  split_and!; assumption.
Defined.



Lemma C5_order_independent_witness :
  evaluate Sample.plain [Sample.acme2; Sample.globex1; Sample.acme1]
    Sample.acme1
  = evaluate Sample.plain [Sample.acme1; Sample.acme2; Sample.globex1]
      Sample.acme1.
Proof.
  apply (C5_order_independent Sample.plain
           [Sample.acme1; Sample.acme2; Sample.globex1]
           [Sample.acme2; Sample.globex1; Sample.acme1] Sample.acme1).
  - unfold distinctIds. apply (bool_decide_unpack _). vm_compute. exact I.
  - exact (Permutation_cons_append [Sample.acme2; Sample.globex1]
             Sample.acme1).
  - left.
Defined.


End RuleChainSamples.

(** ** The rate limiter *)

Section Limiter.
Import RateLimit Spec.
Variable W : Z.
Variable MAX : nat.

Local Abbreviation checkW := (checkRateLimit W MAX).

Lemma Math_ceil_div_spec n d :
  (0 < d)%Z →
  (d * (JS.Math_ceil_div n d - 1) < n ≤ d * JS.Math_ceil_div n d)%Z.
Proof.
  intros Hd. unfold JS.Math_ceil_div.
  pose proof (Z.div_mod (- n) d ltac:(lia)).
  pose proof (Z.mod_pos_bound (- n) d Hd). nia.
Qed.

Lemma checkRateLimit_fresh now uid (store : gmap string Entry) :
  store !! uid = None →
  checkW now uid store
  = (Allowed, <[uid := {| count := 1; resetTime := (now + W)%Z |}]> store).
Proof. intros H. unfold checkRateLimit. by rewrite H. Qed.

Lemma checkRateLimit_expired now uid e (store : gmap string Entry) :
  store !! uid = Some e → (resetTime e ≤ now)%Z →
  checkW now uid store
  = (Allowed, <[uid := {| count := 1; resetTime := (now + W)%Z |}]> store).
Proof.
  intros H Hr. unfold checkRateLimit. rewrite H.
  by rewrite bool_decide_eq_true_2.
Qed.

Lemma checkRateLimit_counted now uid e (store : gmap string Entry) :
  store !! uid = Some e → (now < resetTime e)%Z → count e < MAX →
  checkW now uid store
  = (Allowed,
     <[uid := {| count := S (count e); resetTime := resetTime e |}]> store).
Proof.
  intros H Hr Hc. unfold checkRateLimit. rewrite H.
  rewrite bool_decide_eq_false_2 by lia.
  by rewrite bool_decide_eq_false_2 by lia.
Qed.

Lemma checkRateLimit_denied now uid e (store : gmap string Entry) :
  store !! uid = Some e → (now < resetTime e)%Z → MAX ≤ count e →
  checkW now uid store
  = (Denied (JS.Math_ceil_div (resetTime e - now) 1000), store).
Proof.
  intros H Hr Hc. unfold checkRateLimit. rewrite H.
  rewrite bool_decide_eq_false_2 by lia.
  by rewrite bool_decide_eq_true_2 by lia.
Qed.

(** Requests of one caller that all fall inside the caller's open window. *)
Lemma requests_within ts uid e (store : gmap string Entry) :
  store !! uid = Some e →
  Forall (λ t, (t < resetTime e)%Z) ts →
  count e ≤ MAX →
  requests W MAX ts uid store
  = (imap (λ i t, answer MAX (resetTime e) (count e + i) t) ts,
     <[uid := {| count := Nat.min (count e + length ts) MAX;
                 resetTime := resetTime e |}]> store).
Proof.
  revert e store.
  induction ts as [|t ts IH]; intros e store Hs Hts Hc;
    cbn [requests imap length].
  - rewrite Nat.add_0_r, Nat.min_l by done.
    rewrite insert_id; [done|]. by destruct e.
  - apply Forall_cons in Hts as [Ht Hts].
    destruct (decide (count e < MAX)) as [Hlt|Hge].
    + rewrite (checkRateLimit_counted _ _ e) by done.
      rewrite (IH {| count := S (count e); resetTime := resetTime e |});
        [|apply lookup_insert_eq|done|cbn [count]; lia].
      cbn [count resetTime]. rewrite insert_insert_eq.
      replace (S (count e) + length ts) with (count e + S (length ts)) by lia.
      f_equal. unfold answer at 2. rewrite Nat.add_0_r.
      rewrite bool_decide_eq_true_2 by done. f_equal.
      apply imap_ext. intros i x _. cbn [compose]. f_equal. lia.
    + rewrite (checkRateLimit_denied _ _ e) by (done || lia).
      rewrite (IH e) by done.
      replace (Nat.min (count e + S (length ts)) MAX)
        with (Nat.min (count e + length ts) MAX) by lia.
      f_equal. unfold answer at 2. rewrite Nat.add_0_r.
      rewrite bool_decide_eq_false_2 by done. f_equal.
      apply imap_ext. intros i x _. cbn [compose]. unfold answer.
      by rewrite !bool_decide_eq_false_2 by lia.
Qed.

(** A request of one caller leaves the window of every other caller as it
    is. *)
Lemma checkRateLimit_other now uid uid' (store : gmap string Entry) :
  uid ≠ uid' → (checkW now uid store).2 !! uid' = store !! uid'.
Proof.
  intros Hne. unfold checkRateLimit.
  destruct (store !! uid) as [e|]; repeat case_bool_decide; simpl;
    by rewrite ?lookup_insert_ne.
Qed.

(** A caller unknown to the store opens a window at [t0] and keeps calling
    before it closes. *)
Lemma requests_window t0 ts uid (store : gmap string Entry) :
  store !! uid = None →
  Forall (λ t, (t < t0 + W)%Z) ts →
  1 ≤ MAX →
  requests W MAX (t0 :: ts) uid store
  = (Allowed :: imap (λ i t, answer MAX (t0 + W) (S i) t) ts,
     <[uid := {| count := Nat.min (S (length ts)) MAX;
                 resetTime := (t0 + W)%Z |}]> store).
Proof.
  intros Hs Hts Hmax. cbn [requests]. rewrite checkRateLimit_fresh by done.
  rewrite (requests_within ts uid {| count := 1; resetTime := (t0 + W)%Z |});
    [|apply lookup_insert_eq|done|done].
  cbn [count resetTime]. by rewrite insert_insert_eq.
Qed.

(** The whole life of one window, for any window length and ceiling. *)
Lemma fixed_window uid (store : gmap string Entry) t0 ts t :
  1 ≤ MAX →
  store !! uid = None →
  Forall (λ t', (t' < t0 + W)%Z) ts →
  (t0 + W ≤ t)%Z →
  checkW t0 uid store
  = (Allowed, <[uid := {| count := 1; resetTime := (t0 + W)%Z |}]> store)
  ∧ ∃ results store',
      requests W MAX (t0 :: ts) uid store = (results, store')
      ∧ (∀ i t', (t0 :: ts) !! i = Some t' →
           if bool_decide (i < MAX)
           then results !! i = Some Allowed
           else ∃ retryAfter,
                  results !! i = Some (Denied retryAfter)
                  ∧ (0 < retryAfter)%Z
                  ∧ (1000 * (retryAfter - 1) < t0 + W - t'
                     ≤ 1000 * retryAfter)%Z)
      ∧ store' !! uid
        = Some {| count := Nat.min (S (length ts)) MAX;
                  resetTime := (t0 + W)%Z |}
      ∧ checkW t uid store'
        = (Allowed,
           <[uid := {| count := 1; resetTime := (t + W)%Z |}]> store').
Proof.
  intros Hmax Hs Hts Ht. split; [by apply checkRateLimit_fresh|].
  eexists _, _. split; [by apply requests_window|]. split_and!.
  - intros [|i] t' Hi.
    + rewrite bool_decide_eq_true_2 by lia. done.
    + rewrite lookup_cons in Hi. rewrite !lookup_cons.
      assert (t' < t0 + W)%Z as Hlt.
      { eapply (proj1 (Forall_forall _ _) Hts).
        by eapply list_elem_of_lookup_2. }
      rewrite list_lookup_imap, Hi. cbn [fmap option_fmap option_map].
      unfold answer. destruct (bool_decide (S i < MAX)); [done|].
      eexists. split; [done|].
      pose proof (Math_ceil_div_spec (t0 + W - t') 1000 ltac:(lia)). lia.
  - apply lookup_insert_eq.
  - eapply checkRateLimit_expired; [apply lookup_insert_eq|exact Ht].
Qed.

End Limiter.

Section Endpoints.
Import RateLimit Spec.

Lemma calls_requests e times uid store :
  calls e times uid store
  = match e with
    | Analysis =>
        requests AnalyzeTransactions.RATE_LIMIT_WINDOW_MS
          AnalyzeTransactions.MAX_REQUESTS_PER_WINDOW times uid store
    | ReportGeneration =>
        requests GenerateAuditReport.RATE_LIMIT_WINDOW_MS
          GenerateAuditReport.MAX_REPORTS_PER_WINDOW times uid store
    end.
Proof.
  revert store. induction times as [|t times IH]; intros store.
  - by destruct e.
  - destruct e; cbn [calls check requests];
      unfold AnalyzeTransactions.checkRateLimit,
             GenerateAuditReport.checkRateLimit;
      destruct (checkRateLimit _ _ t uid store) as [r store'];
      by rewrite IH.
Qed.

(** C6: at either entry point, for a caller the store does not know, the
    first request is allowed and opens a window with count 1; of the
    requests that follow before the window closes, those up to the ceiling
    are allowed and every later one is denied with a positive retry-after,
    the seconds left until the reset rounded up; a request at or after the
    reset time is allowed and opens a new window with count 1. *)
Theorem C6_fixed_window e uid (store : gmap string Entry) t0 ts t :
  store !! uid = None →
  Forall (λ t', (t' < t0 + windowMs e)%Z) ts →
  (t0 + windowMs e ≤ t)%Z →
  check e t0 uid store
  = (Allowed,
     <[uid := {| count := 1; resetTime := (t0 + windowMs e)%Z |}]> store)
  ∧ ∃ results store',
      calls e (t0 :: ts) uid store = (results, store')
      ∧ (∀ i t', (t0 :: ts) !! i = Some t' →
           if bool_decide (i < ceiling e)
           then results !! i = Some Allowed
           else ∃ retryAfter,
                  results !! i = Some (Denied retryAfter)
                  ∧ (0 < retryAfter)%Z
                  ∧ (1000 * (retryAfter - 1) < t0 + windowMs e - t'
                     ≤ 1000 * retryAfter)%Z)
      ∧ store' !! uid
        = Some {| count := Nat.min (S (length ts)) (ceiling e);
                  resetTime := (t0 + windowMs e)%Z |}
      ∧ check e t uid store'
        = (Allowed,
           <[uid := {| count := 1; resetTime := (t + windowMs e)%Z |}]>
             store').
Proof.
  intros Hs Hts Ht. rewrite calls_requests.
  destruct e; apply fixed_window; (done || (cbv; lia)).
Qed.

Lemma C6_fixed_window_witness :
  let times := [1000; 2000; 3000; 4000; 5000; 6000; 7000; 8000; 9000;
                10500]%Z in
  ∃ store',
    calls Analysis (0%Z :: times) "user-1" ∅
    = ([Allowed; Allowed; Allowed; Allowed; Allowed; Allowed; Allowed;
        Allowed; Allowed; Allowed; Denied 3590], store')
    ∧ (check Analysis 3600000 "user-1" store').1 = Allowed.
Proof.
  intros times.
  destruct (C6_fixed_window Analysis "user-1" ∅ 0 times 3600000)
    as (_ & results & store' & Hcalls & _ & _ & Hafter).
  - apply lookup_empty.
  - unfold times. repeat constructor.
  - simpl. lia.
  - exists store'. split; [|by rewrite Hafter].
    rewrite Hcalls. f_equal.
    vm_compute in Hcalls. by injection Hcalls as <- _.
Defined.

End Endpoints.

(** ** The narrative augmenter of the analysis handler *)

Section Merge.
Import AnalyzeTransactions Spec.
Variable toLocaleString : Q → string.
Variable JSON_parse : string → string + JS.Json.
Variable replaceAll : string → string → string.

Lemma deterministic_assign e a : deterministic (assign e a) = deterministic a.
Proof. reflexivity. Qed.

Lemma mergeOne_deterministic assessments e assessments' :
  mergeOne assessments e = Some assessments' →
  deterministic <$> assessments' = deterministic <$> assessments.
Proof.
  unfold mergeOne.
  assert (∀ l',
    match list_find (matchesId e) assessments with
    | Some (i, a) => Some (<[i := assign e a]> assessments)
    | None => Some assessments
    end = Some l' → deterministic <$> l' = deterministic <$> assessments)
    as Hfind.
  { intros l'. destruct (list_find _ _) as [[i a]|] eqn:E; intros [= <-];
      [|done].
    apply list_find_Some in E as (Hi & _ & _).
    rewrite list_fmap_insert, (deterministic_assign e a).
    apply list_insert_id. by rewrite list_lookup_fmap, Hi. }
  destruct assessments as [|a0 l], e; try done; apply Hfind.
Qed.

Lemma mergeAll_deterministic items assessments :
  deterministic <$> mergeAll items assessments
  = deterministic <$> assessments.
Proof.
  revert assessments. induction items as [|e items IH]; intros l; simpl.
  - done.
  - destruct (mergeOne l e) as [l'|] eqn:E; [|done].
    rewrite IH. by apply (mergeOne_deterministic l e).
Qed.

Lemma mergeParsed_deterministic parsed assessments :
  deterministic <$> mergeParsed parsed assessments
  = deterministic <$> assessments.
Proof.
  destruct parsed; simpl; try done; apply mergeAll_deterministic.
Qed.



(** C8: the merge of the narrative generator's content leaves the id, the
    tier, the score, the factor list, the rule-based reason and the rule
    summary of every assessment as they were; a parsed entry that matches
    an assessment replaces it by a copy in which only [audit_observation]
    and [suggested_action] are set, from the entry; and the assessments a
    response carries have the rule-based part of those computed. *)
Theorem C8_merge_frame :
  (∀ aiContent assessments,
     deterministic <$> mergeContent JSON_parse replaceAll aiContent assessments
     = deterministic <$> assessments)
  ∧ (∀ explanation assessments i a,
       explanation ≠ JS.JNull →
       list_find (matchesId explanation) assessments = Some (i, a) →
       mergeOne assessments explanation
       = Some (<[i := assign explanation a]> assessments)
       ∧ deterministic (assign explanation a) = deterministic a
       ∧ audit_observation (assign explanation a)
         = JS.prop "audit_observation" explanation
       ∧ suggested_action (assign explanation a)
         = JS.prop "suggested_action" explanation)
  ∧ (∀ assessments aiResponse response,
       afterNarrative JSON_parse replaceAll assessments aiResponse
       = JS.Ret response →
       ∃ merged,
         AnalyzeTransactions.assessments response = Some merged
         ∧ deterministic <$> merged = deterministic <$> assessments).
Proof.
  assert (∀ aiContent assessments,
     deterministic <$> mergeContent JSON_parse replaceAll aiContent assessments
     = deterministic <$> assessments) as Hcontent.
  { intros aiContent assessments. unfold mergeContent.
    destruct (JS.truthy aiContent); [|done].
    destruct aiContent as [[]|]; try done.
    destruct (JSON_parse _); [done|]. apply mergeParsed_deterministic. }
  split_and!.
  - exact Hcontent.
  - intros e l i a Hne Hfind. split_and!; try done.
    unfold mergeOne. rewrite Hfind. by destruct l, e.
  - intros l r resp. unfold afterNarrative.
    destruct (negb (Fetch.ok r)).
    + repeat case_decide; intros [= <-]; by eexists.
    + destruct (Fetch.json r) as [msg|data]; [done|].
      destruct data; try done; intros [= <-]; eexists; (split; [done|]);
        apply Hcontent.
Qed.

End Merge.

(** ** Narrative failures and unknown sessions *)

Section Failures.
Import AnalyzeTransactions Spec.
Variable toLocaleString : Q → string.
Variable JSON_parse : string → string + JS.Json.
Variable replaceAll : string → string → string.



Lemma serve_admitted req w store uid :
  admittedToAnalysis req w store uid →
  (serve toLocaleString JSON_parse replaceAll req w store).1 =
    match analyze toLocaleString JSON_parse replaceAll req w with
    | JS.Ret response => response
    | JS.Throw message => onError message
    end.
Proof.
  intros (Hm & (h & Hh & Hb) & Hurl & Hkey & Hclaims & Hrl).
  unfold serve. rewrite decide_False by done. rewrite Hh, Hb, Hurl, Hkey.
  simpl. rewrite Hclaims.
  destruct (checkRateLimit _ _ _) as [[] store']; simpl in *; done.
Qed.


Lemma report_serve_admitted req w store uid :
  admittedToReport req w store uid →
  GenerateAuditReport.serve JSON_parse replaceAll req w store =
    (match (GenerateAuditReport.generate JSON_parse replaceAll req w uid).1
     with
     | JS.Ret response => response
     | JS.Throw message => GenerateAuditReport.onError message
     end,
     (GenerateAuditReport.checkRateLimit (GenerateAuditReport.now w) uid
        store).2,
     (GenerateAuditReport.generate JSON_parse replaceAll req w uid).2).
Proof.
  intros (Hm & (h & Hh & Hb) & Hkey & Hurl & Hanon & Hsrv & Hclaims & Hrl).
  unfold GenerateAuditReport.serve. rewrite decide_False by done.
  rewrite Hh, Hb, Hkey, Hurl, Hanon, Hsrv. simpl. rewrite Hclaims.
  destruct (GenerateAuditReport.checkRateLimit _ _ _) as [[] store'];
    simpl in *; [|done].
  by destruct (GenerateAuditReport.generate _ _ _ _ _).
Qed.


(** C9, amended: a report for a session id that is unknown, or that is
    another caller's, is answered with status 500 and the message
    "Session not found or access denied", passed through as it is; no report
    is returned and nothing is written to [audit_reports]. *)
Theorem C9_session_not_found req w store uid sessionId :
  admittedToReport req w store uid →
  GenerateAuditReport.body req = inr (Some sessionId) →
  sessionId ≠ "" →
  notOwnSession w sessionId uid →
  GenerateAuditReport.serve JSON_parse replaceAll req w store =
    ({| GenerateAuditReport.status := 500;
        GenerateAuditReport.error := Some "Session not found or access denied";
        GenerateAuditReport.retry_after := None;
        GenerateAuditReport.report := None;
        GenerateAuditReport.success := false |},
     (GenerateAuditReport.checkRateLimit (GenerateAuditReport.now w) uid
        store).2,
     []).
Proof.
  intros Hadm Hbody Hsid Hnot.
  rewrite (report_serve_admitted _ _ _ uid) by done.
  unfold GenerateAuditReport.generate. rewrite Hbody. simpl.
  rewrite bool_decide_eq_true_2 by done. simpl.
  assert (GenerateAuditReport.selectSession w sessionId uid = None) as ->;
    [|done].
  unfold GenerateAuditReport.selectSession.
  destruct (GenerateAuditReport.sessionQueryFails w); [done|].
  unfold notOwnSession in Hnot.
  assert (filter (λ r, GenerateAuditReport.Session.id r = sessionId
                       ∧ GenerateAuditReport.Session.user_id r = uid)
            (GenerateAuditReport.analysis_sessions w) = []) as ->; [|done].
  induction (GenerateAuditReport.analysis_sessions w) as [|s l IH];
    [done|].
  rewrite filter_cons, decide_False.
  - apply IH. intros s' Hs'. apply Hnot. by right.
  - intros [Hid Hu]. apply (Hnot s); [left|done..].
Qed.

End Failures.

(** *** The handlers at sample requests *)

Section HandlerSamples.
Import AnalyzeTransactions Spec.

Lemma C8_merge_frame_witness :
  let det := assess Sample.plain [Sample.acme1; Sample.acme2]
               (buildDuplicateGroups [Sample.acme1; Sample.acme2])
             <$> [Sample.acme1; Sample.acme2] in
  let entry := JS.JObj [("transaction_id", JS.JStr "a2");
                        ("risk_reason", JS.JStr "It looks fine.");
                        ("audit_observation", JS.JStr "Paid twice.")] in
  ∃ a1 a2,
    mergeOne det entry = Some [a1; a2]
    ∧ deterministic <$> [a1; a2] = deterministic <$> det
    ∧ risk_reason a2
      = "Rule 1 triggered: Duplicate transaction (2 occurrences)"
    ∧ audit_observation a2 = Some (JS.JStr "Paid twice.")
    ∧ suggested_action a2 = None.
Proof.
  intros det entry.
  destruct (C8_merge_frame Sample.noJson Sample.noFence) as (_ & Hone & _).
  destruct (Hone entry det 1 (assess Sample.plain [Sample.acme1; Sample.acme2]
               (buildDuplicateGroups [Sample.acme1; Sample.acme2])
               Sample.acme2)) as (Hm & Hd & Ho & Hs).
  - discriminate.
  - reflexivity.
  - eexists _, _. split; [exact Hm|]. split_and!; reflexivity.
Defined.


Lemma admitted_report_sample owner status :
  admittedToReport Sample.reportRequest (Sample.reportWorld owner status)
    ∅ "user-1".
Proof.
  split_and!; try reflexivity; [discriminate|].
  eexists. split; reflexivity.
Qed.


(** The claim C9 as written promises status 404; a caller asking for
    another caller's session is answered with status 500. *)
Lemma C9_counterexample :
  ¬ (∀ JSON_parse replaceAll req w store uid sessionId,
       admittedToReport req w store uid →
       GenerateAuditReport.body req = inr (Some sessionId) →
       sessionId ≠ "" →
       notOwnSession w sessionId uid →
       GenerateAuditReport.status
         (GenerateAuditReport.serve JSON_parse replaceAll req w store).1.1
       = 404).
Proof.
  intros H.
  specialize (H Sample.noJson Sample.noFence Sample.reportRequest
                (Sample.reportWorld "user-2" 200) ∅ "user-1" "s1"
                (admitted_report_sample _ _) eq_refl).
  assert (500 = 404) as Habs; [|discriminate].
  apply H; [discriminate|].
  intros s Hs _. apply list_elem_of_singleton in Hs as ->. discriminate.
Qed.

Lemma C9_session_not_found_witness :
  ∃ store',
    GenerateAuditReport.serve Sample.noJson Sample.noFence
      Sample.reportRequest (Sample.reportWorld "user-2" 200) ∅
    = ({| GenerateAuditReport.status := 500;
          GenerateAuditReport.error :=
            Some "Session not found or access denied";
          GenerateAuditReport.retry_after := None;
          GenerateAuditReport.report := None;
          GenerateAuditReport.success := false |}, store', []).
Proof.
  eexists.
  apply (C9_session_not_found Sample.noJson Sample.noFence
           Sample.reportRequest (Sample.reportWorld "user-2" 200) ∅
           "user-1" "s1" (admitted_report_sample _ _) eq_refl).
  - discriminate.
  - intros s Hs _. apply list_elem_of_singleton in Hs as ->. discriminate.
Defined.

End HandlerSamples.

(** ** More on the duplicate grouper and the rule chain *)

Section GrouperFacts.
Import AnalyzeTransactions Spec.
Variable toLocaleString : Q → string.

Local Abbreviation analyze := (analyzeTransaction toLocaleString).




(** X3: [isDuplicate] answers [true] only with the size, at least 2, of a
    group that holds the id, and answers [false] with count 0 only when no
    group of more than one id holds it. *)
Theorem isDuplicate_sound txId (groups : Groups) :
  match isDuplicate txId groups with
  | (true, n) =>
      2 ≤ n ∧ ∃ key ids, (key, ids) ∈ groups ∧ txId ∈ ids ∧ length ids = n
  | (false, n) =>
      n = 0 ∧ ∀ key ids, (key, ids) ∈ groups → txId ∈ ids → length ids ≤ 1
  end.
Proof.
  induction groups as [|[k ids] groups IH]; simpl.
  - split; [done|]. by intros ?? ?%elem_of_nil.
  - destruct (bool_decide (txId ∈ ids)) eqn:Hin; simpl.
    + apply bool_decide_eq_true in Hin.
      destruct (1 <? length ids) eqn:Hlen.
      * apply Nat.ltb_lt in Hlen. split; [lia|].
        exists k, ids. split_and!; [left|done..].
      * apply Nat.ltb_ge in Hlen.
        destruct (isDuplicate txId groups) as [[] n].
        -- destruct IH as (? & k' & ids' & ? & ? & ?). split; [done|].
           exists k', ids'. split_and!; [by right|done..].
        -- destruct IH as [-> IH]. split; [done|].
           intros k' ids' [[= -> ->]|?]%elem_of_cons ?; eauto.
    + apply bool_decide_eq_false in Hin.
      destruct (isDuplicate txId groups) as [[] n].
      * destruct IH as (? & k' & ids' & ? & ? & ?). split; [done|].
        exists k', ids'. split_and!; [by right|done..].
      * destruct IH as [-> IH]. split; [done|].
        intros k' ids' [[= -> ->]|?]%elem_of_cons ?; [done|eauto].
Qed.



(** X6: a vendor country that reads "UNITED ARAB EMIRATES" once trimmed and
    put in capitals is taken for "UAE": when rules 1 and 2 are silent the
    result is MEDIUM with score 50 and a reason that names UAE. *)
Theorem emirates_alias tx all groups :
  (isDuplicate (Tx.id tx) groups).1 = false →
  (Tx.amount tx < 500000)%Q →
  JS.toUpperCase (JS.trim (JS.orEmpty (Tx.vendor_country tx)))
  = "UNITED ARAB EMIRATES" →
  let r := analyze tx all groups in
  level r = medium ∧ score r = 50
  ∧ why r = "Rule 3 triggered: Vendor country is UAE"
  ∧ type <$> factors r = ["vendor_country_risk"].
Proof.
  intros Hdup Hamt Hc r. subst r. rewrite analyze_below by done.
  assert (normCountry tx = "UAE") as Hn.
  { unfold normCountry. by rewrite Hc. }
  unfold riskyCountry. rewrite Hn. done.
Qed.

Lemma analyze_outcome tx all groups :
  let r := analyze tx all groups in
  (∃ n, r = duplicateResult n)
  ∨ (∃ a, r = highValueResult toLocaleString a)
  ∨ (∃ a, r = mediumValueResult toLocaleString a)
  ∨ (∃ c, r = vendorCountryResult c)
  ∨ (∃ n, r = frequencyResult n)
  ∨ r = lowResult.
Proof.
  intros r. subst r. unfold analyzeTransaction.
  destruct (isDuplicate _ _) as [[] n]; [eauto|].
  destruct (JS.gt _ _); [eauto 6|].
  destruct (_ && _); [eauto 6|].
  destruct (_ && _); [eauto 6|].
  destruct (bool_decide _); [|eauto 10].
  destruct (_ <? _); eauto 10.
Qed.

(** X7: tier, score and severity always agree: a result is HIGH exactly
    when its score is 85 or more, MEDIUM exactly when it is between 45 and
    60, LOW exactly when it is 0; no score exceeds 100; and the factor of a
    result is HIGH exactly when the result is. *)
Theorem tier_score_severity tx all groups :
  let r := analyze tx all groups in
  (level r = high ↔ 85 ≤ score r)
  ∧ (level r = medium ↔ 45 ≤ score r ≤ 60)
  ∧ (level r = low ↔ score r = 0)
  ∧ score r ≤ 100
  ∧ ∀ f, f ∈ factors r → (severity f = HIGH ↔ level r = high).
Proof.
  intros r.
  destruct (analyze_outcome tx all groups)
    as [[n Hr]|[[a Hr]|[[a Hr]|[[c Hr]|[[n Hr]|Hr]]]]];
    fold r in Hr; rewrite Hr; simpl;
    (split_and!; [split; (done || lia)..|lia|]);
    intros f; rewrite ?elem_of_nil, ?list_elem_of_singleton; try done;
    by intros ->.
Qed.

End GrouperFacts.

(** ** More on the two request handlers *)

Section HandlerFacts.
Import AnalyzeTransactions Spec.
Variable toLocaleString : Q → string.
Variable JSON_parse : string → string + JS.Json.
Variable replaceAll : string → string → string.

Local Abbreviation serveA := (serve toLocaleString JSON_parse replaceAll).
Local Abbreviation serveR := (GenerateAuditReport.serve JSON_parse replaceAll).

Lemma afterNarrative_deterministic assessments aiResponse response :
  afterNarrative JSON_parse replaceAll assessments aiResponse
  = JS.Ret response →
  ∃ merged,
    AnalyzeTransactions.assessments response = Some merged
    ∧ deterministic <$> merged = deterministic <$> assessments.
Proof.
  unfold afterNarrative. destruct (negb (Fetch.ok aiResponse)).
  - repeat case_decide; intros [= <-]; by eexists.
  - destruct (Fetch.json aiResponse) as [msg|data]; [done|].
    assert (deterministic <$>
              mergeContent JSON_parse replaceAll
                (JS.optProp "content"
                   (JS.optProp "message"
                      (JS.optIndex0 (JS.prop "choices" data)))) assessments
            = deterministic <$> assessments) as Hm.
    { unfold mergeContent. destruct (JS.truthy _); [|done].
      destruct (JS.optProp "content" _) as [[]|]; try done.
      destruct (JSON_parse _); [done|]. apply mergeParsed_deterministic. }
    destruct data; try done; intros [= <-]; by eexists.
Qed.

Lemma onError_assessments message :
  AnalyzeTransactions.assessments (onError message) = None.
Proof. reflexivity. Qed.

Lemma serve_analyze req w store answered :
  assessments (serveA req w store).1 = Some answered →
  ∃ response,
    analyze toLocaleString JSON_parse replaceAll req w = JS.Ret response
    ∧ assessments response = Some answered.
Proof.
  unfold serve. case_decide; [done|].
  destruct (Authorization req) as [h|]; [|done].
  destruct (JS.startsWith h "Bearer "); [|done].
  destruct (_ || _); [done|].
  destruct (getClaims w) as [uid|]; [|done].
  destruct (checkRateLimit _ _ _) as [[|r] store']; [|done]. simpl.
  destruct (analyze _ _ _ req w) as [response|message]; [|done].
  intros Hanswered. by exists response.
Qed.

Lemma analyze_assessments req w response answered :
  analyze toLocaleString JSON_parse replaceAll req w = JS.Ret response →
  assessments response = Some answered →
  ∃ b txs,
    body req = inr b ∧ transactions b = Some txs
    ∧ transaction_id <$> answered = Tx.id <$> txs
    ∧ deterministic <$> answered
      = deterministic
        <$> (assess toLocaleString txs (buildDuplicateGroups txs) <$> txs).
Proof.
  unfold analyze. destruct (negb _); [done|].
  destruct (body req) as [msg|b]; [done|].
  destruct (transactions b) as [[|tx txs]|] eqn:Htxs; [done| |done].
  set (det := assess toLocaleString (tx :: txs)
                (buildDuplicateGroups (tx :: txs)) <$> tx :: txs).
  assert (transaction_id <$> det = Tx.id <$> tx :: txs) as Hids.
  { unfold det. rewrite <-list_fmap_compose. done. }
  assert (∀ l, deterministic <$> l = deterministic <$> det →
               transaction_id <$> l = transaction_id <$> det) as Hdet.
  { intros l E.
    assert (transaction_id = (λ p, p.1.1.1.1.1) ∘ deterministic) as ->
      by done.
    by rewrite !list_fmap_compose, E. }
  case_decide.
  - intros [= <-] [= <-]. exists b, (tx :: txs). split_and!; done.
  - destruct (fetch w) as [msg|r]; [done|].
    intros E Ha.
    apply afterNarrative_deterministic in E as (merged & Hm & Hd).
    assert (merged = answered) as -> by congruence.
    exists b, (tx :: txs). split_and!; try done.
    by rewrite (Hdet _ Hd).
Qed.

(** X8: whenever the analysis handler answers with assessments, there is
    one per submitted transaction, in the order submitted, carrying that
    transaction's id and the result of the rule chain for it, whatever the
    narrative generator returned. *)
Theorem one_assessment_per_transaction req w store answered :
  assessments (serveA req w store).1 = Some answered →
  ∃ b txs,
    body req = inr b ∧ transactions b = Some txs
    ∧ transaction_id <$> answered = Tx.id <$> txs
    ∧ deterministic <$> answered
      = deterministic
        <$> (assess toLocaleString txs (buildDuplicateGroups txs) <$> txs).
Proof.
  intros (response & Hanalyze & Hanswered)%serve_analyze.
  by apply (analyze_assessments req w response).
Qed.

(** X25: the three counts the upload page writes to the session after an
    answer of the analysis handler (high, medium, low) add up to the number
    of transactions it sent. *)
Theorem upload_counts_add_up req w store answered b txs :
  assessments (serveA req w store).1 = Some answered →
  body req = inr b → transactions b = Some txs →
  let '(nHigh, nMedium, nLow) := Upload.riskCounts answered in
  nHigh + nMedium + nLow = length txs.
Proof.
  intros (response & Hanalyze & Hanswered)%serve_analyze Hb' Ht'.
  destruct (analyze_assessments req w response answered Hanalyze Hanswered)
    as (b' & txs' & Hb & Ht & Hids & _).
  assert (txs' = txs) as -> by congruence.
  apply (f_equal length) in Hids. rewrite !length_fmap in Hids.
  rewrite <-Hids. unfold Upload.riskCounts. clear.
  induction answered as [|a l IH]; [done|].
  rewrite !filter_cons.
  destruct (risk_level a); repeat case_decide; try done; simpl; lia.
Qed.

(** X9: when every assessment of the batch is LOW the handler answers 200
    with the assessments without looking at the narrative generator: the
    answer is the same whatever [fetch] would do. *)
Theorem all_low_skips_narrative req w store uid b txs :
  admittedToAnalysis req w store uid →
  JS.truthyStr (LOVABLE_API_KEY w) = true →
  body req = inr b → transactions b = Some txs → txs ≠ [] →
  let det := assess toLocaleString txs (buildDuplicateGroups txs) <$> txs in
  Forall (λ a, risk_level a = low) det →
  (serveA req w store).1 = okResponse det.
Proof.
  intros Hadm Hkey Hbody Htxs Hne det Hlow.
  rewrite (serve_admitted _ _ _ _ _ _ uid) by done.
  unfold analyze. rewrite Hkey, Hbody, Htxs. simpl.
  destruct txs as [|tx txs']; [done|]. fold det.
  rewrite decide_True; [done|].
  assert (filter (λ a, risk_level a ≠ low) det = []) as ->; [|done].
  clear -Hlow. induction Hlow as [|a l Ha _ IH]; [done|].
  rewrite filter_cons, decide_False; [done|]. by intros ?.
Qed.

(** X10: a batch that is absent or empty is answered with status 500 and
    the message "No transactions provided", passed through as it is; no
    narrative call is made. *)
Theorem empty_batch_rejected req w store uid b :
  admittedToAnalysis req w store uid →
  JS.truthyStr (LOVABLE_API_KEY w) = true →
  body req = inr b →
  transactions b = None ∨ transactions b = Some [] →
  (serveA req w store).1 = errorResponse 500 "No transactions provided" None.
Proof.
  intros Hadm Hkey Hbody Htxs.
  rewrite (serve_admitted _ _ _ _ _ _ uid) by done.
  unfold analyze. rewrite Hkey, Hbody. simpl.
  by destruct Htxs as [-> | ->].
Qed.

(** X11: the only error messages the two handlers send are their own
    fixed texts, unless the thrown message contains one of the texts the
    handler lists as safe ("No transactions provided" for the analysis,
    "Session ID is required" and "Session not found or access denied" for
    the report): the message of a failure inside the runtime, the store or
    the network never reaches the caller. *)
Theorem errors_sanitized :
  (∀ req w store message,
     error (serveA req w store).1 = Some message →
     message ∈ [ "Unauthorized: Missing or invalid authorization header";
                 "Unauthorized: Invalid token";
                 "Rate limit exceeded. Please try again later.";
                 "Rate limit exceeded. Please try again in a moment.";
                 "AI credits exhausted. Please add credits to continue.";
                 "Analysis failed. Please try again." ]
     ∨ JS.includes message "No transactions provided" = true)
  ∧ (∀ req w store message,
       GenerateAuditReport.error (serveR req w store).1.1 = Some message →
       message ∈ [ "Unauthorized: Missing or invalid authorization header";
                   "Unauthorized: Invalid token";
                   "Rate limit exceeded. Please try again later.";
                   "Rate limit exceeded. Please try again in a moment.";
                   "AI credits exhausted. Please add credits to continue.";
                   "Report generation failed. Please try again." ]
       ∨ JS.includes message "Session ID is required" = true
       ∨ JS.includes message "Session not found or access denied" = true).
Proof.
  split.
  - intros req w store message.
    assert (∀ m, error (onError m) = Some message →
      message ∈ [ "Unauthorized: Missing or invalid authorization header";
                  "Unauthorized: Invalid token";
                  "Rate limit exceeded. Please try again later.";
                  "Rate limit exceeded. Please try again in a moment.";
                  "AI credits exhausted. Please add credits to continue.";
                  "Analysis failed. Please try again." ]
      ∨ JS.includes message "No transactions provided" = true) as Hon.
    { intros m. unfold onError, userSafeErrors. simpl. rewrite orb_false_r.
      destruct (JS.includes m _) eqn:E; intros [= <-]; [by right|left].
      set_solver. }
    unfold serve. case_decide; [done|].
    destruct (Authorization req) as [h|]; [|intros [= <-]; left; set_solver].
    destruct (JS.startsWith h "Bearer "); [|intros [= <-]; left; set_solver].
    destruct (_ || _); [apply Hon|].
    destruct (getClaims w) as [uid|]; [|intros [= <-]; left; set_solver].
    destruct (checkRateLimit _ _ _) as [[|r] store'];
      [|intros [= <-]; left; set_solver].
    simpl. destruct (analyze _ _ _ req w) as [resp|m] eqn:E; [|apply Hon].
    revert E. unfold analyze. destruct (negb _); [done|].
    destruct (body req) as [msg|b]; [done|].
    destruct (transactions b) as [[|tx txs]|]; [done| |done].
    case_decide; [by intros [= <-]|].
    destruct (fetch w) as [msg|r]; [done|].
    unfold afterNarrative. destruct (negb (Fetch.ok r)).
    + repeat case_decide; intros [= <-]; simpl; try done;
        intros [= <-]; left; set_solver.
    + destruct (Fetch.json r) as [msg|data]; [done|].
      destruct data; try done; by intros [= <-].
  - intros req w store message.
    assert (∀ m,
      GenerateAuditReport.error (GenerateAuditReport.onError m)
      = Some message →
      message ∈ [ "Unauthorized: Missing or invalid authorization header";
                  "Unauthorized: Invalid token";
                  "Rate limit exceeded. Please try again later.";
                  "Rate limit exceeded. Please try again in a moment.";
                  "AI credits exhausted. Please add credits to continue.";
                  "Report generation failed. Please try again." ]
      ∨ JS.includes message "Session ID is required" = true
      ∨ JS.includes message "Session not found or access denied" = true)
      as Hon.
    { intros m. unfold GenerateAuditReport.onError,
        GenerateAuditReport.userSafeErrors. simpl. rewrite orb_false_r.
      destruct (JS.includes m "Session ID is required") eqn:E1; simpl.
      { intros [= <-]. right. by left. }
      destruct (JS.includes m "Session not found or access denied") eqn:E2;
        intros [= <-].
      { right. by right. }
      left. set_solver. }
    unfold GenerateAuditReport.serve. case_decide; [done|].
    destruct (GenerateAuditReport.Authorization req) as [h|];
      [|intros [= <-]; left; set_solver].
    destruct (JS.startsWith h "Bearer ");
      [|intros [= <-]; left; set_solver].
    destruct (negb _); [apply Hon|].
    destruct (_ || _); [apply Hon|].
    destruct (GenerateAuditReport.getClaims w) as [uid|];
      [|intros [= <-]; left; set_solver].
    destruct (GenerateAuditReport.checkRateLimit _ _ _) as [[|r] store'];
      [|intros [= <-]; left; set_solver].
    destruct (GenerateAuditReport.generate _ _ _ _ _) as [outcome inserted]
      eqn:Hg.
    simpl. destruct outcome as [resp|m]; [|apply Hon].
    revert Hg. unfold GenerateAuditReport.generate.
    repeat (match goal with
            | |- context [match ?x with _ => _ end] =>
                lazymatch x with
                | context [match _ with _ => _ end] => fail
                | _ => destruct x eqn:?
                end
            end).
    all: intros [= <- <-]; simpl; try done.
    all: intros [= <-]; left; set_solver.
Qed.

(** X12: a request that carries no bearer credential, or a token the
    identity service rejects, is answered 401 by both entry points; the rate
    limiter does not count it and the report function writes nothing. *)
Theorem unauthenticated_rejected :
  (∀ req w store,
     method req ≠ "OPTIONS" → ¬ bearer (Authorization req) →
     serveA req w store
     = (errorResponse 401
          "Unauthorized: Missing or invalid authorization header" None,
        store))
  ∧ (∀ req w store,
       method req ≠ "OPTIONS" → bearer (Authorization req) →
       JS.truthyStr (SUPABASE_URL w) = true →
       JS.truthyStr (SUPABASE_ANON_KEY w) = true →
       getClaims w = None →
       serveA req w store
       = (errorResponse 401 "Unauthorized: Invalid token" None, store))
  ∧ (∀ req w store,
       GenerateAuditReport.method req ≠ "OPTIONS" →
       ¬ bearer (GenerateAuditReport.Authorization req) →
       serveR req w store
       = (GenerateAuditReport.errorResponse 401
            "Unauthorized: Missing or invalid authorization header" None,
          store, []))
  ∧ (∀ req w store,
       GenerateAuditReport.method req ≠ "OPTIONS" →
       bearer (GenerateAuditReport.Authorization req) →
       JS.truthyStr (GenerateAuditReport.LOVABLE_API_KEY w) = true →
       JS.truthyStr (GenerateAuditReport.SUPABASE_URL w) = true →
       JS.truthyStr (GenerateAuditReport.SUPABASE_ANON_KEY w) = true →
       JS.truthyStr (GenerateAuditReport.SUPABASE_SERVICE_ROLE_KEY w) = true →
       GenerateAuditReport.getClaims w = None →
       serveR req w store
       = (GenerateAuditReport.errorResponse 401 "Unauthorized: Invalid token"
            None, store, [])).
Proof.
  split_and!.
  - intros req w store Hm Hb. unfold serve. rewrite decide_False by done.
    destruct (Authorization req) as [h|]; [|done].
    destruct (JS.startsWith h "Bearer ") eqn:E; [|done].
    destruct Hb. by exists h.
  - intros req w store Hm (h & Hh & Hb) Hurl Hkey Hc. unfold serve.
    rewrite decide_False by done. by rewrite Hh, Hb, Hurl, Hkey, Hc.
  - intros req w store Hm Hb. unfold GenerateAuditReport.serve.
    rewrite decide_False by done.
    destruct (GenerateAuditReport.Authorization req) as [h|]; [|done].
    destruct (JS.startsWith h "Bearer ") eqn:E; [|done].
    destruct Hb. by exists h.
  - intros req w store Hm (h & Hh & Hb) Hkey Hurl Hanon Hsrv Hc.
    unfold GenerateAuditReport.serve. rewrite decide_False by done.
    by rewrite Hh, Hb, Hkey, Hurl, Hanon, Hsrv, Hc.
Qed.

Lemma checkRateLimit_denied_store W MAX now uid store r store' :
  RateLimit.checkRateLimit W MAX now uid store = (RateLimit.Denied r, store') →
  store' = store
  ∧ ∃ e, store !! uid = Some e ∧ (now < RateLimit.resetTime e)%Z
         ∧ MAX ≤ RateLimit.count e
         ∧ r = JS.Math_ceil_div (RateLimit.resetTime e - now) 1000.
Proof.
  unfold RateLimit.checkRateLimit.
  destruct (store !! uid) as [e|]; [|done].
  repeat case_bool_decide; intros [= <- <-]. split; [done|].
  exists e. split_and!; (done || lia).
Qed.

(** X13: a request the rate limiter denies is answered 429 with the seconds
    to wait, at least one; it is not counted (the store is left as it was),
    nothing is analysed and no report is written. *)
Theorem rate_limited_rejected :
  (∀ req w store uid r,
     method req ≠ "OPTIONS" → bearer (Authorization req) →
     JS.truthyStr (SUPABASE_URL w) = true →
     JS.truthyStr (SUPABASE_ANON_KEY w) = true →
     getClaims w = Some uid →
     (checkRateLimit (now w) uid store).1 = RateLimit.Denied r →
     serveA req w store
     = (errorResponse 429 "Rate limit exceeded. Please try again later."
          (Some r), store)
     ∧ (1 ≤ r)%Z)
  ∧ (∀ req w store uid r,
       GenerateAuditReport.method req ≠ "OPTIONS" →
       bearer (GenerateAuditReport.Authorization req) →
       JS.truthyStr (GenerateAuditReport.LOVABLE_API_KEY w) = true →
       JS.truthyStr (GenerateAuditReport.SUPABASE_URL w) = true →
       JS.truthyStr (GenerateAuditReport.SUPABASE_ANON_KEY w) = true →
       JS.truthyStr (GenerateAuditReport.SUPABASE_SERVICE_ROLE_KEY w) = true →
       GenerateAuditReport.getClaims w = Some uid →
       (GenerateAuditReport.checkRateLimit (GenerateAuditReport.now w) uid
          store).1 = RateLimit.Denied r →
       serveR req w store
       = (GenerateAuditReport.errorResponse 429
            "Rate limit exceeded. Please try again later." (Some r),
          store, [])
       ∧ (1 ≤ r)%Z).
Proof.
  split.
  - intros req w store uid r Hm (h & Hh & Hb) Hurl Hkey Hc Hrl.
    unfold serve. rewrite decide_False by done.
    rewrite Hh, Hb, Hurl, Hkey, Hc. simpl.
    destruct (checkRateLimit _ _ _) as [res store'] eqn:E.
    simpl in Hrl. subst res.
    apply checkRateLimit_denied_store in E as (-> & e & _ & Hlt & _ & ->).
    split; [done|].
    pose proof (Math_ceil_div_spec (RateLimit.resetTime e - now w) 1000
                  ltac:(lia)). lia.
  - intros req w store uid r Hm (h & Hh & Hb) Hkey Hurl Hanon Hsrv Hc Hrl.
    unfold GenerateAuditReport.serve. rewrite decide_False by done.
    rewrite Hh, Hb, Hkey, Hurl, Hanon, Hsrv, Hc. simpl.
    destruct (GenerateAuditReport.checkRateLimit _ _ _) as [res store'] eqn:E.
    simpl in Hrl. subst res.
    apply checkRateLimit_denied_store in E as (-> & e & _ & Hlt & _ & ->).
    split; [done|].
    pose proof (Math_ceil_div_spec
                  (RateLimit.resetTime e - GenerateAuditReport.now w) 1000
                  ltac:(lia)). lia.
Qed.

Lemma selectSession_own w sid uid session :
  GenerateAuditReport.selectSession w sid uid = Some session →
  session ∈ GenerateAuditReport.analysis_sessions w
  ∧ GenerateAuditReport.Session.id session = sid
  ∧ GenerateAuditReport.Session.user_id session = uid.
Proof.
  unfold GenerateAuditReport.selectSession.
  destruct (GenerateAuditReport.sessionQueryFails w); [done|].
  destruct (filter _ _) as [|s [|]] eqn:Hf; try done. intros [= ->].
  assert (session ∈ [session]) as Hin by left. rewrite <-Hf in Hin.
  apply list_elem_of_filter in Hin as [[] ?]. done.
Qed.

Lemma generate_rows req w uid outcome inserted :
  GenerateAuditReport.generate JSON_parse replaceAll req w uid
  = (outcome, inserted) →
  (inserted = []
   ∧ ∀ r, outcome = JS.Ret r → GenerateAuditReport.success r = false)
  ∨ ∃ row sid session report,
      inserted = [row]
      ∧ outcome = JS.Ret {| GenerateAuditReport.status := 200;
                            GenerateAuditReport.error := None;
                            GenerateAuditReport.retry_after := None;
                            GenerateAuditReport.report := Some report;
                            GenerateAuditReport.success := true |}
      ∧ GenerateAuditReport.body req = inr (Some sid)
      ∧ GenerateAuditReport.selectSession w sid uid = Some session
      ∧ GenerateAuditReport.Report.session_id row = sid
      ∧ GenerateAuditReport.Report.user_id row
        = GenerateAuditReport.Session.user_id session.
Proof.
  unfold GenerateAuditReport.generate.
  repeat (match goal with
          | |- context [match ?x with _ => _ end] =>
              lazymatch x with
              | context [match _ with _ => _ end] => fail
              | _ => destruct x eqn:?
              end
          end).
  all: intros [= <- <-].
  all: first
    [ by (left; split; [done|intros ? [= <-]; done])
    | right;
      match goal with
      | H : GenerateAuditReport.body _ = inr ?o |- _ =>
          destruct o as [sid|]; [|done]
      end;
      eexists _, _, _, _; split_and!; done ].
Qed.

(** X14: the report function writes at most one row, and only on the
    path that answers [success]: the row carries the caller's id and the
    requested session id, and that session is one of the caller's own. *)
Theorem report_row_is_callers_own req w store :
  let '(response, _, inserted) := serveR req w store in
  (GenerateAuditReport.success response = true ↔ inserted ≠ [])
  ∧ (GenerateAuditReport.success response = true →
     GenerateAuditReport.status response = 200
     ∧ GenerateAuditReport.error response = None)
  ∧ ∀ row, row ∈ inserted →
      inserted = [row]
      ∧ ∃ uid sessionId session,
          GenerateAuditReport.getClaims w = Some uid
          ∧ GenerateAuditReport.body req = inr (Some sessionId)
          ∧ session ∈ GenerateAuditReport.analysis_sessions w
          ∧ GenerateAuditReport.Session.id session = sessionId
          ∧ GenerateAuditReport.Session.user_id session = uid
          ∧ GenerateAuditReport.Report.session_id row = sessionId
          ∧ GenerateAuditReport.Report.user_id row = uid.
Proof.
  assert (∀ (r : GenerateAuditReport.Response),
    GenerateAuditReport.success r = false →
    (GenerateAuditReport.success r = true
       ↔ ([] : list GenerateAuditReport.Report.Row) ≠ [])
    ∧ (GenerateAuditReport.success r = true →
       GenerateAuditReport.status r = 200
       ∧ GenerateAuditReport.error r = None)
    ∧ ∀ row, row ∈ ([] : list GenerateAuditReport.Report.Row) →
        [] = [row]
        ∧ ∃ uid sessionId session,
          GenerateAuditReport.getClaims w = Some uid
          ∧ GenerateAuditReport.body req = inr (Some sessionId)
          ∧ session ∈ GenerateAuditReport.analysis_sessions w
          ∧ GenerateAuditReport.Session.id session = sessionId
          ∧ GenerateAuditReport.Session.user_id session = uid
          ∧ GenerateAuditReport.Report.session_id row = sessionId
          ∧ GenerateAuditReport.Report.user_id row = uid) as Hnone.
  { intros r Hr. rewrite Hr. split_and!; [done|done|].
    by intros row ?%elem_of_nil. }
  unfold GenerateAuditReport.serve. case_decide; [by apply Hnone|].
  destruct (GenerateAuditReport.Authorization req) as [h|];
    [|by apply Hnone].
  destruct (JS.startsWith h "Bearer "); [|by apply Hnone].
  destruct (negb _); [by apply Hnone|].
  destruct (_ || _); [by apply Hnone|].
  destruct (GenerateAuditReport.getClaims w) as [uid|] eqn:Hc;
    [|by apply Hnone].
  destruct (GenerateAuditReport.checkRateLimit _ _ _) as [[|r] store'];
    [|by apply Hnone].
  destruct (GenerateAuditReport.generate _ _ _ _ _) as [outcome inserted]
    eqn:Hg.
  apply generate_rows in Hg
    as [[-> Hfail]|(row & sid & session & report & -> & -> & Hb & Hs & Hsid
                    & Hu)].
  - destruct outcome as [resp|msg]; apply Hnone; [by apply Hfail|done].
  - apply selectSession_own in Hs as (Hin & Hid & Hown). simpl.
    split_and!; [done|done|].
    intros row' ->%list_elem_of_singleton. split; [done|].
    exists uid, sid, session. split_and!; try done. by rewrite Hu.
Qed.

End HandlerFacts.

(** ** More on the rate limiter *)

Section LimiterFacts.
Import RateLimit Spec.

Lemma checkRateLimit_cases W MAX now uid (store : gmap string Entry) :
  (∃ reset, checkRateLimit W MAX now uid store
            = (Allowed, <[uid := {| count := 1; resetTime := reset |}]> store)
            ∧ reset = (now + W)%Z)
  ∨ (∃ e, store !! uid = Some e ∧ (now < resetTime e)%Z ∧ count e < MAX
          ∧ checkRateLimit W MAX now uid store
            = (Allowed,
               <[uid := {| count := S (count e); resetTime := resetTime e |}]>
                 store))
  ∨ (∃ e, store !! uid = Some e ∧ (now < resetTime e)%Z ∧ MAX ≤ count e
          ∧ checkRateLimit W MAX now uid store
            = (Denied (JS.Math_ceil_div (resetTime e - now) 1000), store)).
Proof.
  unfold checkRateLimit. destruct (store !! uid) as [e|] eqn:E.
  - repeat case_bool_decide.
    + left. by eexists.
    + right. right. exists e. split_and!; (done || lia).
    + right. left. exists e. split_and!; (done || lia).
  - left. by eexists.
Qed.

Lemma check_unfold e :
  check e = checkRateLimit (windowMs e) (ceiling e).
Proof. by destruct e. Qed.

Lemma calls_unfold e times uid store :
  calls e times uid store = requests (windowMs e) (ceiling e) times uid store.
Proof. rewrite calls_requests. by destruct e. Qed.

Lemma ceiling_pos e : 1 ≤ ceiling e.
Proof. destruct e; simpl; lia. Qed.

(** X15: whatever a caller does, every counter of the store stays between
    1 and the ceiling of the entry point, the caller has a window afterwards,
    and the windows of the other callers are left as they were. *)
Theorem limiter_counts_bounded e times uid (store : gmap string Entry) :
  (∀ u entry, store !! u = Some entry → 1 ≤ count entry ≤ ceiling e) →
  let store' := (calls e times uid store).2 in
  (∀ u entry, store' !! u = Some entry → 1 ≤ count entry ≤ ceiling e)
  ∧ (times ≠ [] → is_Some (store' !! uid))
  ∧ (∀ u, u ≠ uid → store' !! u = store !! u).
Proof.
  rewrite calls_unfold. pose proof (ceiling_pos e) as Hpos.
  revert store. induction times as [|t times IH]; intros store Hinv.
  - simpl. split_and!; done.
  - cbn [requests].
    destruct (checkRateLimit (windowMs e) (ceiling e) t uid store)
      as [r store1] eqn:E.
    assert ((∀ u entry, store1 !! u = Some entry →
               1 ≤ count entry ≤ ceiling e)
            ∧ is_Some (store1 !! uid)
            ∧ ∀ u, u ≠ uid → store1 !! u = store !! u) as (Hinv1 & Hs1 & Hfr1).
    { destruct (checkRateLimit_cases (windowMs e) (ceiling e) t uid store)
        as [(reset & Hc & _)|[(en & Hen & _ & Hlt & Hc)|(en & Hen & _ & _ & Hc)]];
        rewrite Hc in E; injection E as <- <-.
      - split_and!.
        + intros u entry. destruct (decide (u = uid)) as [->|Hne].
          * rewrite lookup_insert_eq. intros [= <-]. simpl. lia.
          * rewrite lookup_insert_ne by done. apply Hinv.
        + rewrite lookup_insert_eq. by eexists.
        + intros u Hne. by rewrite lookup_insert_ne.
      - split_and!.
        + intros u entry. destruct (decide (u = uid)) as [->|Hne].
          * rewrite lookup_insert_eq. intros [= <-]. simpl. lia.
          * rewrite lookup_insert_ne by done. apply Hinv.
        + rewrite lookup_insert_eq. by eexists.
        + intros u Hne. by rewrite lookup_insert_ne.
      - split_and!; [done|by eexists|done]. }
    specialize (IH store1 Hinv1).
    destruct (requests (windowMs e) (ceiling e) times uid store1)
      as [rs store2] eqn:E2.
    simpl in *. destruct IH as (Hinv2 & Hs2 & Hfr2). split_and!.
    + done.
    + intros _. destruct times as [|t' times'].
      * simpl in E2. by injection E2 as _ <-.
      * by apply Hs2.
    + intros u Hne. by rewrite Hfr2, Hfr1.
Qed.

Lemma requests_retry_bound W MAX k uid times t0
    (store : gmap string Entry) :
  W = (1000 * k)%Z →
  (∀ e, store !! uid = Some e → (resetTime e ≤ t0 + W)%Z) →
  Forall (λ t, (t0 ≤ t)%Z) times →
  StronglySorted Z.le times →
  ∀ r, Denied r ∈ (requests W MAX times uid store).1 → (1 ≤ r ≤ k)%Z.
Proof.
  intros HW. revert t0 store.
  induction times as [|t times IH]; intros t0 store Hinv Hge Hsorted r.
  - simpl. by intros ?%elem_of_nil.
  - cbn [requests].
    apply Forall_cons in Hge as [Ht0 Hge].
    apply StronglySorted_inv in Hsorted as [Hsorted Hall].
    destruct (checkRateLimit W MAX t uid store) as [res store1] eqn:E.
    destruct (requests W MAX times uid store1) as [rs store2] eqn:E2.
    simpl. intros [Hr|Hr]%elem_of_cons.
    + subst res.
      apply checkRateLimit_denied_store in E as (-> & e & He & Hlt & _ & ->).
      specialize (Hinv e He).
      pose proof (Math_ceil_div_spec (resetTime e - t) 1000 ltac:(lia)). lia.
    + apply (IH t store1); [|done..| by rewrite E2].
      intros e1 He1.
      destruct (checkRateLimit_cases W MAX t uid store)
        as [(reset & Hc & ->)|[(en & Hen & _ & _ & Hc)|(en & Hen & _ & _ & Hc)]];
        rewrite Hc in E; injection E as <- <-.
      * rewrite lookup_insert_eq in He1. injection He1 as <-. simpl. lia.
      * rewrite lookup_insert_eq in He1. injection He1 as <-. simpl.
        specialize (Hinv en Hen). lia.
      * rewrite Hen in He1. injection He1 as <-.
        specialize (Hinv en Hen). lia.
Qed.

(** X16: for a caller unknown to the store whose requests arrive in the
    order of the clock, every denial, through any number of windows, asks to
    wait at least one second and at most the length of the window: 3600
    seconds for analyses, 86400 for reports. *)
Theorem retry_after_bounded e times uid (store : gmap string Entry) :
  store !! uid = None →
  StronglySorted Z.le times →
  ∀ r, Denied r ∈ (calls e times uid store).1 →
    (1 ≤ r ≤ windowMs e / 1000)%Z.
Proof.
  intros Hs Hsorted r. rewrite calls_unfold.
  destruct times as [|t times]; [simpl; by intros ?%elem_of_nil|].
  apply (requests_retry_bound _ _ _ uid (t :: times) t store).
  - by destruct e.
  - intros en. by rewrite Hs.
  - constructor; [lia|]. by apply StronglySorted_inv in Hsorted as [_ ?].
  - done.
Qed.

End LimiterFacts.

(** ** What a request leaves alone *)

Section FrameFacts.
Import AnalyzeTransactions Spec.
Variable toLocaleString : Q → string.
Variable JSON_parse : string → string + JS.Json.
Variable replaceAll : string → string → string.

Lemma checkRateLimit_frame W MAX now uid (store : gmap string RateLimit.Entry)
    u :
  u ≠ uid →
  (RateLimit.checkRateLimit W MAX now uid store).2 !! u = store !! u.
Proof.
  intros Hne.
  destruct (checkRateLimit_cases W MAX now uid store)
    as [(reset & -> & _)|[(e & _ & _ & _ & ->)|(e & _ & _ & _ & ->)]];
    simpl; by rewrite ?lookup_insert_ne.
Qed.

(** X29: a request changes the rate-limit entry of a caller only if it is
    no preflight and carries a bearer token that the identity service
    attributes to that caller: nobody's quota is spent by somebody else's
    request, nor by a request that is not authenticated. *)
Theorem own_counter_only :
  (∀ req w store u,
     (serve toLocaleString JSON_parse replaceAll req w store).2 !! u
     ≠ store !! u →
     method req ≠ "OPTIONS" ∧ bearer (Authorization req)
     ∧ getClaims w = Some u)
  ∧ (∀ req w store u,
       (GenerateAuditReport.serve JSON_parse replaceAll req w store).1.2 !! u
       ≠ store !! u →
       GenerateAuditReport.method req ≠ "OPTIONS"
       ∧ bearer (GenerateAuditReport.Authorization req)
       ∧ GenerateAuditReport.getClaims w = Some u).
Proof.
  split.
  - intros req w store u. unfold serve. case_decide; [done|].
    destruct (Authorization req) as [h|]; [|done].
    destruct (JS.startsWith h "Bearer ") eqn:Hb; [|done].
    destruct (_ || _); [done|].
    destruct (getClaims w) as [uid|]; [|done].
    destruct (checkRateLimit (now w) uid store) as [[|r] store'] eqn:E;
      simpl; intros Hch;
      (destruct (decide (u = uid)) as [->|Hne];
       [split_and!; [done|by exists h|done]|]);
      destruct Hch;
      pose proof (checkRateLimit_frame RATE_LIMIT_WINDOW_MS
                    MAX_REQUESTS_PER_WINDOW (now w) uid store u Hne) as Hfr;
      unfold checkRateLimit in E; by rewrite E in Hfr.
  - intros req w store u. unfold GenerateAuditReport.serve.
    case_decide; [done|].
    destruct (GenerateAuditReport.Authorization req) as [h|]; [|done].
    destruct (JS.startsWith h "Bearer ") eqn:Hb; [|done].
    destruct (negb _); [done|].
    destruct (_ || _); [done|].
    destruct (GenerateAuditReport.getClaims w) as [uid|]; [|done].
    destruct (GenerateAuditReport.checkRateLimit
                (GenerateAuditReport.now w) uid store) as [[|r] store'] eqn:E;
      [destruct (GenerateAuditReport.generate _ _ _ _ _) as [outcome rows]|];
      simpl; intros Hch;
      (destruct (decide (u = uid)) as [->|Hne];
       [split_and!; [done|by exists h|done]|]);
      destruct Hch;
      pose proof (checkRateLimit_frame GenerateAuditReport.RATE_LIMIT_WINDOW_MS
                    GenerateAuditReport.MAX_REPORTS_PER_WINDOW
                    (GenerateAuditReport.now w) uid store u Hne) as Hfr;
      unfold GenerateAuditReport.checkRateLimit in E; by rewrite E in Hfr.
Qed.

End FrameFacts.

Section ColumnFacts.
Import AnalyzeTransactions Spec.
Variable toLocaleString : Q → string.

Lemma buildDuplicateGroups_fmap (f : Transaction → Transaction) batch :
  (∀ t, Tx.id (f t) = Tx.id t ∧ normVendor (f t) = normVendor t
        ∧ groupKey (f t) = groupKey t) →
  buildDuplicateGroups (f <$> batch) = buildDuplicateGroups batch.
Proof.
  intros Hf. unfold buildDuplicateGroups. generalize ([] : Groups).
  induction batch as [|t batch IH]; intros groups; [done|].
  csimpl. rewrite <-IH. f_equal. unfold addToGroups.
  destruct (Hf t) as (-> & -> & ->). done.
Qed.

(** X30: the result of the rule chain for a transaction depends on the
    batch only through the id, vendor name, vendor country, date and amount
    of its transactions: changing the other columns (the reference, the
    department, the payment method, the description) changes no result. *)
Theorem other_columns_ignored (f : Transaction → Transaction) batch tx :
  (∀ t, Tx.id (f t) = Tx.id t
        ∧ Tx.vendor_name (f t) = Tx.vendor_name t
        ∧ Tx.vendor_country (f t) = Tx.vendor_country t
        ∧ Tx.transaction_date (f t) = Tx.transaction_date t
        ∧ Tx.amount (f t) = Tx.amount t) →
  evaluate toLocaleString (f <$> batch) (f tx)
  = evaluate toLocaleString batch tx.
Proof.
  intros Hf.
  assert (∀ t, normVendor (f t) = normVendor t) as Hv.
  { intros t. unfold normVendor. by destruct (Hf t) as (_ & -> & _). }
  assert (∀ t, groupKey (f t) = groupKey t) as Hk.
  { intros t. unfold groupKey, cents. rewrite Hv.
    by destruct (Hf t) as (_ & _ & _ & -> & ->). }
  assert (∀ v d, length (filter (sameVendorSameDate v d) (f <$> batch))
                 = length (filter (sameVendorSameDate v d) batch)) as Hcount.
  { intros v d. induction batch as [|t batch IH]; [done|].
    csimpl. rewrite !filter_cons.
    assert (sameVendorSameDate v d (f t) ↔ sameVendorSameDate v d t) as Hiff.
    { unfold sameVendorSameDate. rewrite Hv.
      by destruct (Hf t) as (_ & _ & _ & -> & _). }
    destruct (decide (sameVendorSameDate v d (f t))),
      (decide (sameVendorSameDate v d t)); simpl; rewrite ?IH; tauto. }
  unfold evaluate. rewrite buildDuplicateGroups_fmap.
  2:{ intros t. split_and!; [by destruct (Hf t)|apply Hv|apply Hk]. }
  unfold analyzeTransaction, normCountry. rewrite Hv, Hcount.
  by destruct (Hf tx) as (-> & _ & -> & -> & ->).
Qed.

End ColumnFacts.

(** ** The session statistics of the report function *)

Section MapFacts.

Lemma Map_get_Map_set {V} k k' v (m : list (string * V)) :
  JS.Map_get k' (JS.Map_set k v m)
  = if decide (k' = k) then Some v else JS.Map_get k' m.
Proof.
  induction m as [|[k0 v0] m IH]; csimpl.
  - destruct (decide (k = k')), (decide (k' = k)); congruence.
  - destruct (decide (k0 = k)) as [->|Hk]; csimpl.
    + destruct (decide (k = k')), (decide (k' = k)); congruence.
    + destruct (decide (k0 = k')) as [->|Hk'].
      * by rewrite decide_False by congruence.
      * exact IH.
Qed.

Context {T V : Type} (keyOf : T → string) (upd : V → T → V) (d : V).

Local Abbreviation aggregate := (Spec.aggregate keyOf upd d).

Lemma aggregate_get_1 m t k :
  JS.Map_get k (aggregate m t)
  = if decide (k = keyOf t)
    then Some (upd (default d (JS.Map_get (keyOf t) m)) t)
    else JS.Map_get k m.
Proof. unfold Spec.aggregate. apply Map_get_Map_set. Qed.

Lemma aggregate_get items : ∀ m k,
  JS.Map_get k (foldl aggregate m items)
  = match filter (λ t, keyOf t = k) items with
    | [] => JS.Map_get k m
    | ts => Some (foldl upd (default d (JS.Map_get k m)) ts)
    end.
Proof.
  induction items as [|t items IH]; intros m k; [done|].
  cbn [foldl]. rewrite IH, filter_cons, aggregate_get_1.
  destruct (decide (keyOf t = k)) as [<-|Hne].
  - rewrite decide_True by done. simpl. by destruct (filter _ items).
  - by rewrite decide_False by congruence.
Qed.

Lemma aggregate_NoDup items : ∀ m,
  NoDup m.*1 → NoDup (foldl aggregate m items).*1.
Proof.
  induction items as [|t items IH]; intros m Hm; [done|].
  cbn [foldl]. apply IH. unfold Spec.aggregate. by apply Map_set_NoDup.
Qed.

Lemma aggregate_elem_of items k v :
  (k, v) ∈ foldl aggregate [] items ↔
  filter (λ t, keyOf t = k) items ≠ []
  ∧ v = foldl upd d (filter (λ t, keyOf t = k) items).
Proof.
  rewrite <-Map_get_Some by (apply aggregate_NoDup; constructor).
  rewrite aggregate_get. simpl.
  destruct (filter _ items); naive_solver.
Qed.

End MapFacts.

Section SortFacts.
Context {A : Type} (key : A → Q).

Local Abbreviation descending := (λ a b : A, (key b - key a)%Q).

Lemma insertSorted_Permutation (cmp : A → A → Q) x l :
  JSArray.insertSorted cmp x l ≡ₚ x :: l.
Proof.
  induction l as [|y l IH]; simpl; [done|].
  destruct (JS.gt _ _); [|done]. rewrite IH. apply perm_swap.
Qed.

Lemma sort_Permutation (cmp : A → A → Q) l : JSArray.sort cmp l ≡ₚ l.
Proof.
  induction l as [|x l IH]; simpl; [done|].
  by rewrite insertSorted_Permutation, IH.
Qed.

Lemma gt_descending x y :
  JS.gt (key y - key x) 0 = true ↔ (key x < key y)%Q.
Proof.
  rewrite gt_spec. split; intros H; lra.
Qed.

Lemma insertSorted_sorted x l :
  StronglySorted (λ a b, (key b <= key a)%Q) l →
  StronglySorted (λ a b, (key b <= key a)%Q)
    (JSArray.insertSorted descending x l).
Proof.
  induction 1 as [|y l Hl IH Hy]; simpl.
  - repeat constructor.
  - destruct (JS.gt (key y - key x) 0) eqn:E.
    + apply gt_descending in E. constructor; [done|].
      rewrite insertSorted_Permutation. constructor; [|done].
      by apply Qlt_le_weak.
    + apply gt_false in E. assert (key y <= key x)%Q as Hyx by lra.
      constructor; [by constructor|]. constructor; [done|].
      eapply Forall_impl; [exact Hy|]. simpl. intros z Hz.
      by eapply Qle_trans.
Qed.

Lemma sort_sorted l :
  StronglySorted (λ a b, (key b <= key a)%Q) (JSArray.sort descending l).
Proof.
  induction l as [|x l IH]; simpl; [constructor|].
  by apply insertSorted_sorted.
Qed.

Lemma insertSorted_stable k x l :
  filter (λ a, (key a == k)%Q) (JSArray.insertSorted descending x l)
  = filter (λ a, (key a == k)%Q) (x :: l).
Proof.
  induction l as [|y l IH]; simpl; [done|].
  destruct (JS.gt (key y - key x) 0) eqn:E; [|done].
  apply gt_descending in E.
  rewrite (filter_cons _ y), IH, !filter_cons.
  destruct (decide (key x == k)%Q) as [Hx|Hx]; [|done].
  destruct (decide (key y == k)%Q) as [Hy|Hy]; [|done].
  lra.
Qed.

Lemma sort_stable k l :
  filter (λ a, (key a == k)%Q) (JSArray.sort descending l)
  = filter (λ a, (key a == k)%Q) l.
Proof.
  induction l as [|x l IH]; simpl; [done|].
  rewrite insertSorted_stable, !filter_cons. by rewrite IH.
Qed.

Lemma sort_ext (f g : A → A → Q) l :
  (∀ x y, f x y = g x y) → JSArray.sort f l = JSArray.sort g l.
Proof.
  intros Hfg. induction l as [|x l IH]; simpl; [done|]. rewrite IH.
  clear IH. generalize (JSArray.sort g l). intros l'.
  induction l' as [|y l' IH']; simpl; [done|].
  by rewrite Hfg, IH'.
Qed.

(** What [sort(descending).slice(0, n)] keeps. *)
Lemma top_spec n l :
  let top := JSArray.slice0 n (JSArray.sort descending l) in
  length top = Nat.min n (length l)
  ∧ StronglySorted (λ a b, (key b <= key a)%Q) top
  ∧ (∃ rest, top ++ rest ≡ₚ l
             ∧ ∀ a b, a ∈ top → b ∈ rest → (key b <= key a)%Q)
  ∧ ∀ k, filter (λ a, (key a == k)%Q) top
         `prefix_of` filter (λ a, (key a == k)%Q) l.
Proof.
  intros top. unfold top, JSArray.slice0.
  pose proof (sort_sorted l) as Hs. pose proof (sort_Permutation descending l)
    as Hp.
  rewrite <-(take_drop n (JSArray.sort descending l)) in Hs.
  split_and!.
  - rewrite length_take. by rewrite Hp.
  - by apply StronglySorted_app_1_l in Hs.
  - exists (drop n (JSArray.sort descending l)). split.
    + by rewrite take_drop.
    + intros a b Ha Hb.
      by apply (StronglySorted_app_1_elem_of _ _ _ a b) in Hs.
  - intros k. rewrite <-(sort_stable k l).
    rewrite <-(take_drop n (JSArray.sort descending l)) at 2.
    rewrite filter_app. by apply prefix_app_r.
Qed.

End SortFacts.

Section StatisticsFacts.
Import Statistics Spec.

Lemma Qsum_foldl init l :
  (foldl Qplus init l == init + Qsum l)%Q.
Proof.
  unfold Qsum. revert init. induction l as [|x l IH]; intros init; simpl.
  - ring.
  - rewrite IH, (IH (0 + x)%Q). ring.
Qed.

Lemma Qsum_cons x l : (Qsum (x :: l) == x + Qsum l)%Q.
Proof.
  unfold Qsum at 1. simpl. rewrite (Qsum_foldl (0 + x)). lra.
Qed.





Lemma riskFactorMapOf_aggregate ras :
  riskFactorMapOf ras
  = foldl (aggregate factorKey (λ n _, n + 1) 0) []
      (concat (factorsOf <$> ras)).
Proof.
  unfold riskFactorMapOf.
  assert (∀ m, foldl (λ m ra, foldl addFactor m (factorsOf ra)) m ras
               = foldl addFactor m (concat (factorsOf <$> ras))) as H.
  { induction ras as [|ra ras IH]; intros m; simpl; [done|].
    by rewrite IH, foldl_app. }
  by rewrite H.
Qed.

(** X19: [riskFactorMap] has one entry per factor type met in the
    assessments of the session, a factor without a type counting as
    "unknown" and a [risk_factors] that is no array counting for nothing; the
    entry is the number of factors of that type, so the entries add up to
    the number of factors. *)
Theorem riskFactorMap_counts ras :
  let all := concat (factorsOf <$> ras) in
  NoDup (riskFactorMapOf ras).*1
  ∧ (∀ key n, (key, n) ∈ riskFactorMapOf ras ↔
       1 ≤ n ∧ n = length (filter (λ f, factorKey f = key) all))
  ∧ sum_list (riskFactorMapOf ras).*2 = length all.
Proof.
  intros all. rewrite riskFactorMapOf_aggregate. fold all.
  assert (∀ (fs : list (option string)) n,
            foldl (λ n _, n + 1) n fs = n + length fs) as Hcount.
  { induction fs as [|f fs IH]; intros n; simpl; [lia|]. rewrite IH. lia. }
  split_and!.
  - apply aggregate_NoDup. constructor.
  - intros key n. rewrite aggregate_elem_of, Hcount. simpl.
    destruct (filter _ all); simpl; naive_solver lia.
  - clear Hcount. generalize all. clear. intros all.
    assert (∀ m : list (string * nat),
      sum_list (foldl (aggregate factorKey (λ n _, n + 1) 0) m all).*2
      = sum_list m.*2 + length all) as H.
    { induction all as [|f all IH]; intros m; simpl; [lia|].
      rewrite IH. unfold aggregate.
      assert (∀ k (m : list (string * nat)),
        sum_list (JS.Map_set k (default 0 (JS.Map_get k m) + 1) m).*2
        = S (sum_list m.*2)) as Hset.
      { clear. intros k m. induction m as [|[k0 n0] m IH]; csimpl; [done|].
        destruct (decide (k0 = k)); csimpl; [lia|]. rewrite IH. lia. }
      rewrite Hset. lia. }
    by rewrite H.
Qed.

(** X28: [topRiskFactors] holds the five factor types with the largest
    counts, or all of them when there are fewer, largest first, each once
    and with the count [riskFactorMap] has for it; no type left out has a
    larger count than one kept. *)
Theorem topRiskFactors_ranking ras :
  let top := topRiskFactors ras in
  length top = Nat.min 5 (length (riskFactorMapOf ras))
  ∧ StronglySorted (λ a b, factorCount b ≤ factorCount a) top
  ∧ NoDup (type <$> top)
  ∧ (∀ a, a ∈ top → (type a, factorCount a) ∈ riskFactorMapOf ras)
  ∧ ∀ key n, (key, n) ∈ riskFactorMapOf ras → key ∉ type <$> top →
      ∀ a, a ∈ top → n ≤ factorCount a.
Proof.
  intros top.
  set (entries := (λ '(type, count), {| type := type; factorCount := count |})
                  <$> riskFactorMapOf ras).
  set (key := λ a, inject_Z (Z.of_nat (factorCount a))).
  assert (top = JSArray.slice0 5
                  (JSArray.sort (λ a b, (key b - key a)%Q) entries)) as Htop.
  { unfold top, topRiskFactors. f_equal. apply sort_ext.
    intros x y. unfold key, Z.sub. by rewrite inject_Z_plus, inject_Z_opp. }
  destruct (top_spec key 5 entries)
    as (Hlen & Hsorted & (rest & Hperm & Hrest) & _).
  rewrite <-Htop in Hlen, Hsorted, Hperm, Hrest.
  assert (∀ a b, (key b <= key a)%Q → factorCount b ≤ factorCount a) as Hle.
  { intros a b H. unfold key in H. rewrite <-Zle_Qle in H. lia. }
  assert (type <$> entries = (riskFactorMapOf ras).*1) as Hnames.
  { unfold entries. rewrite <-list_fmap_compose.
    apply list_fmap_ext. by intros ? []. }
  split_and!.
  - rewrite Hlen. unfold entries. by rewrite length_fmap.
  - clear -Hsorted Hle. induction Hsorted as [|a l _ IH Ha]; constructor.
    + done.
    + eapply Forall_impl; [exact Ha|]. intros b. apply Hle.
  - assert (NoDup (type <$> top ++ rest)) as Hnd.
    { rewrite Hperm, Hnames, riskFactorMapOf_aggregate.
      apply aggregate_NoDup. constructor. }
    rewrite fmap_app in Hnd. by apply NoDup_app in Hnd as [? _].
  - intros a Ha.
    assert (a ∈ entries) as Hin
      by (rewrite <-Hperm; apply elem_of_app; by left).
    apply list_elem_of_fmap in Hin as ([t n] & -> & Hin). done.
  - intros k n Hin Hout a Ha.
    assert ({| type := k; factorCount := n |} ∈ top ++ rest) as Hb.
    { rewrite Hperm. apply list_elem_of_fmap. by exists (k, n). }
    apply elem_of_app in Hb as [Hb|Hb].
    + destruct Hout. apply list_elem_of_fmap. by eexists; split; [|exact Hb].
    + apply (Hle a {| type := k; factorCount := n |}). by apply Hrest.
Qed.

Lemma raByTxIdOf_None ras id :
  id ∉ Ra.transaction_id <$> ras →
  JS.Map_get id (raByTxIdOf ras) = None.
Proof.
  unfold raByTxIdOf.
  assert (∀ m, JS.Map_get id m = None →
    id ∉ Ra.transaction_id <$> ras →
    JS.Map_get id (foldl (λ m ra, JS.Map_set (Ra.transaction_id ra) ra m)
                     m ras) = None) as H.
  { induction ras as [|ra ras IH]; intros m Hm Hid; [done|]. simpl.
    rewrite fmap_cons, not_elem_of_cons in Hid. destruct Hid as [Hne Hid].
    apply IH; [|done]. rewrite Map_get_Map_set. by rewrite decide_False. }
  by apply H.
Qed.

Lemma deptMapOf_aggregate txs ras :
  deptMapOf txs ras
  = foldl (aggregate deptOf
             (λ v t, {| deptCount := deptCount v + 1;
                        totalScore :=
                          (totalScore v + scoreOf (raByTxIdOf ras) t)%Q |})
             {| deptCount := 0; totalScore := 0 |}) [] txs.
Proof. reflexivity. Qed.

Lemma dept_fold ras ts v :
  deptCount (foldl (λ v t, {| deptCount := deptCount v + 1;
                        totalScore :=
                          (totalScore v + scoreOf (raByTxIdOf ras) t)%Q |})
               v ts) = deptCount v + length ts
  ∧ (totalScore (foldl (λ v t, {| deptCount := deptCount v + 1;
                        totalScore :=
                          (totalScore v + scoreOf (raByTxIdOf ras) t)%Q |})
               v ts)
     == totalScore v + Qsum (scoreOf (raByTxIdOf ras) <$> ts))%Q.
Proof.
  revert v. induction ts as [|t ts IH]; intros v; csimpl.
  - split; [lia|]. unfold Qsum. simpl. lra.
  - destruct (IH {| deptCount := deptCount v + 1;
                    totalScore :=
                      (totalScore v + scoreOf (raByTxIdOf ras) t)%Q |})
      as [-> ->]. simpl. split; [lia|]. rewrite Qsum_cons. lra.
Qed.

(** X20: each line of the department breakdown stands for one department
    of the session ("Unknown" when none is given), counts its transactions
    and gives as risk score the sum of their scores, a transaction without
    assessment counting 0, divided by their number; the lines come in
    decreasing order of that score; a department none of whose transactions
    has an assessment scores 0. *)
Theorem departmentBreakdown_average txs ras :
  StronglySorted (λ a b, (riskScore b <= riskScore a)%Q)
    (departmentBreakdown txs ras)
  ∧ ∀ line, line ∈ departmentBreakdown txs ras →
      let own := filter (λ t, deptOf t = department line) txs in
      1 ≤ length own
      ∧ breakdownCount line = length own
      ∧ (riskScore line
         == Qsum (scoreOf (raByTxIdOf ras) <$> own)
            / inject_Z (Z.of_nat (length own)))%Q
      ∧ ((∀ t, t ∈ own → Tx.id t ∉ Ra.transaction_id <$> ras) →
         (riskScore line == 0)%Q).
Proof.
  split; [apply (sort_sorted riskScore)|].
  intros line Hline own. unfold departmentBreakdown in Hline.
  rewrite (sort_Permutation _ _) in Hline.
  apply list_elem_of_fmap in Hline as ([dept data] & -> & Hin).
  rewrite deptMapOf_aggregate in Hin.
  apply aggregate_elem_of in Hin as [Hne ->]. simpl in own. fold own in Hne |- *.
  destruct (dept_fold ras own {| deptCount := 0; totalScore := 0 |})
    as [Hc Ht].
  assert (1 ≤ length own) as Hlen by (destruct own; [done|simpl; lia]).
  simpl. rewrite Hc, Ht. simpl.
  assert (riskScoreEq :
    ((0 + Qsum (scoreOf (raByTxIdOf ras) <$> own))
       / inject_Z (Z.of_nat (0 + length own))
     == Qsum (scoreOf (raByTxIdOf ras) <$> own)
        / inject_Z (Z.of_nat (length own)))%Q).
  { rewrite Nat.add_0_l. by rewrite Qplus_0_l. }
  split_and!; [done|lia|exact riskScoreEq|].
  intros Hun. rewrite riskScoreEq.
  assert (Qsum (scoreOf (raByTxIdOf ras) <$> own) == 0)%Q as ->.
  { clear -Hun. induction own as [|t own IH]; [reflexivity|].
    rewrite fmap_cons, Qsum_cons.
    rewrite IH by (intros t' Ht'; apply Hun; by right).
    unfold scoreOf. rewrite raByTxIdOf_None by (apply Hun; left). lra. }
  unfold Qdiv. lra.
Qed.

End StatisticsFacts.

(** ** Normalisation of names *)

Section Normalisation.
Import AnalyzeTransactions Spec.

Lemma app_empty_r s : s +:+ "" = s.
Proof. induction s as [|c s IH]; [done|]. by rewrite app_cons, IH. Qed.









Lemma trimEnd_empty : JS.trimEnd "" = "".
Proof. reflexivity. Qed.


Lemma is_space_upper_char c :
  Ascii.is_space (JS.upper_char c) = Ascii.is_space c.
Proof. by destruct c as [[] [] [] [] [] [] [] []]. Qed.






Lemma allSpace_toUpperCase s : allSpace (JS.toUpperCase s) = allSpace s.
Proof.
  induction s as [|c s IH]; [done|].
  simpl. by rewrite is_space_upper_char, IH.
Qed.












End Normalisation.

(** ** The checks of the upload page *)

Section UploadFacts.
Import Upload Spec.





Lemma rowError_None i tx : rowError i tx = None ↔ validRow tx.
Proof.
  unfold rowError, validRow, invalidAmount.
  destruct (Parsed.amount tx) as [q|].
  - destruct (Qle_bool 0 q) eqn:Hq; simpl.
    + apply Qle_bool_iff in Hq.
      destruct (isISODate _); simpl.
      * destruct (500 <? _) eqn:Hv;
          [apply Nat.ltb_lt in Hv|apply Nat.ltb_ge in Hv].
        { split; [done|]. intros (_ & _ & ? & _). lia. }
        destruct (2000 <? _) eqn:Hd;
          [apply Nat.ltb_lt in Hd|apply Nat.ltb_ge in Hd].
        { split; [done|]. intros (_ & _ & _ & ?). lia. }
        split; [|done]. intros _. split_and!; eauto.
      * split; [done|]. by intros (_ & ? & _).
    + split; [done|]. intros ((q' & [= <-] & Hq') & _).
      apply Qle_bool_iff in Hq'. congruence.
  - split; [done|]. by intros ((q' & ? & _) & _).
Qed.


Lemma rowsError_first k i transactions tx :
  Forall validRow (take i transactions) →
  transactions !! i = Some tx →
  ¬ validRow tx →
  rowsError k transactions = rowError (k + i) tx
  ∧ is_Some (rowError (k + i) tx).
Proof.
  revert k transactions.
  induction i as [|i IH]; intros k [|t rest]; simpl; try done.
  - intros _ [= ->] Hbad. rewrite Nat.add_0_r.
    destruct (rowError k tx) eqn:E; [by eauto|].
    by apply rowError_None in E.
  - intros [Ht Hrest]%Forall_cons Hi Hbad.
    apply (rowError_None k) in Ht. rewrite Ht.
    replace (k + S i) with (S k + i) by lia. by apply IH.
Qed.


(** X23: when nothing is wrong with the file as a whole, the complaint of
    [validateTransactions] is the one about the first row that is not valid,
    and names that row counting from 1. *)
Theorem validateTransactions_first_invalid_row transactions i tx :
  (Z.of_nat (length transactions) ≤ 10000)%Z →
  (∀ firstTx, head transactions = Some firstTx →
     missingColumn firstTx = None) →
  Forall validRow (take i transactions) →
  transactions !! i = Some tx →
  ¬ validRow tx →
  validateTransactions transactions = rowError i tx
  ∧ ∃ complaint rest,
      rowError i tx = Some (complaint +:+ " in row " +:+ pretty (i + 1) +:+ rest).
Proof.
  intros Hlen Hcols Hvalid Hi Hbad.
  destruct (rowsError_first 0 i transactions tx) as [E _]; [done..|].
  split.
  - unfold validateTransactions.
    destruct transactions as [|firstTx rest]; [done|].
    assert ((MAX_TRANSACTIONS <? Z.of_nat (length (firstTx :: rest)))%Z
            = false) as ->.
    { apply Z.ltb_ge. unfold MAX_TRANSACTIONS. done. }
    by rewrite (Hcols firstTx eq_refl).
  - assert (rowError i tx ≠ None) as Hne by (by rewrite rowError_None).
    unfold rowError in *.
    destruct (invalidAmount _).
    { exists "Invalid amount", "". by rewrite app_empty_r. }
    destruct (negb _).
    { by exists "Invalid date format", ". Expected YYYY-MM-DD". }
    destruct (_ <? _).
    { by exists "Vendor name too long", ". Maximum 500 characters". }
    destruct (_ <? _); [|done].
    by exists "Description too long", ". Maximum 2000 characters".
Qed.

(** X24: what [sanitizeCell] returns never begins with one of the
    characters = + - @ tab or carriage return; a cell that does not begin
    with one is returned as it is, so sanitising twice is sanitising once;
    and the same holds of every text field [toText] produces. *)
Theorem sanitizeCell_safe value :
  formulaLike (sanitizeCell value) = false
  ∧ (formulaLike value = false → sanitizeCell value = value)
  ∧ (formulaLike value = true → sanitizeCell value = String "'" value)
  ∧ sanitizeCell (sanitizeCell value) = sanitizeCell value
  ∧ ∀ v, formulaLike (toText v) = false.
Proof.
  assert (∀ x, formulaLike (sanitizeCell x) = false) as Hsafe.
  { intros [|c x]; [done|]. simpl.
    destruct (dangerousPrefix c) eqn:E; [done|]. simpl. by rewrite E. }
  assert (∀ x, formulaLike x = false → sanitizeCell x = x) as Hid.
  { intros [|c x]; [done|]. simpl. by intros ->. }
  split; [apply Hsafe|]. split; [apply Hid|]. split.
  { destruct value as [|c x]; [done|]. simpl. by intros ->. }
  split; [apply Hid, Hsafe|]. intros v. apply Hsafe.
Qed.

End UploadFacts.

(** ** The file checks of the upload page and the colours of a result *)

Section PageFacts.
Import AnalyzeTransactions Upload Spec.
Variable toLocaleString : Q → string.

Lemma split_dotFree s : dotFree s → split "." s = [s].
Proof.
  induction s as [|c s IH]; [done|]. simpl. intros [Hc Hs].
  rewrite decide_False by done. by rewrite IH.
Qed.

Lemma split_app sep a b :
  split sep (a +:+ String sep b) = split sep a ++ split sep b.
Proof.
  induction a as [|c a IH].
  - rewrite app_empty. simpl. by rewrite decide_True.
  - rewrite app_cons. simpl. rewrite IH. destruct (decide (c = sep)); [done|].
    destruct (split sep a) as [|seg segs] eqn:E; [|done].
    by destruct a; simpl in E; repeat case_match.
Qed.

Lemma extension_of stem ext :
  dotFree ext → last (split "." (stem +:+ "." +:+ ext)) = Some ext.
Proof.
  intros H. change ("." +:+ ext) with (String "." ext).
  by rewrite split_app, last_app, split_dotFree.
Qed.

(** X26: [validateFile] goes by what follows the last dot of the file name
    (by the whole name when it has no dot), whatever the case of its
    letters: the file passes exactly when it is at most 10 MiB, that text in
    lower case is csv, xlsx or xls, and the reported content type is empty
    or one of the four listed. *)
Theorem validateFile_accepts file stem ext :
  File.name file = stem +:+ "." +:+ ext ∨ File.name file = ext →
  dotFree ext →
  validateFile file = None
  ↔ (File.size file ≤ 10 * 1024 * 1024)%Z
    ∧ toLowerCase ext ∈ ["csv"; "xlsx"; "xls"]
    ∧ (File.type file = "" ∨ File.type file ∈ VALID_MIME_TYPES).
Proof.
  intros Hname Hext.
  assert (last (split "." (File.name file)) = Some ext) as Hlast.
  { destruct Hname as [-> | ->]; [by apply extension_of|].
    by rewrite split_dotFree. }
  unfold validateFile. rewrite Hlast. simpl.
  destruct (_ <? _)%Z eqn:Hsz;
    [apply Z.ltb_lt in Hsz|apply Z.ltb_ge in Hsz];
    unfold MAX_FILE_SIZE in Hsz.
  { split; [done|]. intros [? _]. lia. }
  destruct (decide (toLowerCase ext ∈ ["csv"; "xlsx"; "xls"])) as [Hin|Hin].
  - rewrite (bool_decide_eq_true_2 _ Hin).
    rewrite bool_decide_eq_true_2 by (intros E; rewrite E in Hin; set_solver).
    simpl. unfold validateMimeType.
    destruct (decide (File.type file = "")) as [Ht|Ht].
    + rewrite bool_decide_eq_false_2 by (by intros ?). simpl.
      split; [|done]. intros _. split_and!; [lia|done|by left].
    + rewrite (bool_decide_eq_true_2 _ Ht). simpl.
      destruct (decide (File.type file ∈ VALID_MIME_TYPES)) as [Hm|Hm].
      * rewrite (bool_decide_eq_true_2 _ Hm). simpl.
        split; [|done]. intros _. split_and!; [lia|done|by right].
      * rewrite (bool_decide_eq_false_2 _ Hm). simpl.
        split; [done|]. intros (_ & _ & [?|?]); done.
  - rewrite (bool_decide_eq_false_2 _ Hin), orb_true_r.
    split; [done|]. by intros (_ & ? & _).
Qed.

(** X27: the colours of the detail page agree with the rule chain: for
    every result of the chain the score bar, the tier label and its
    background are green for LOW, yellow for MEDIUM and red for HIGH. *)
Theorem colours_follow_tier tx all groups :
  let r := analyzeTransaction toLocaleString tx all groups in
  TransactionDetail.getProgressColor (score r)
  = "bg-" +:+ hue (level r) +:+ "-500"
  ∧ TransactionDetail.getRiskColor (Some (level r))
    = "text-" +:+ hue (level r) +:+ "-600"
  ∧ TransactionDetail.getRiskBgColor (Some (level r))
    = "bg-" +:+ hue (level r) +:+ "-100".
Proof.
  intros r.
  destruct (analyze_outcome toLocaleString tx all groups)
    as [[n Hr]|[[a Hr]|[[a Hr]|[[c Hr]|[[n Hr]|Hr]]]]];
    fold r in Hr; by rewrite Hr.
Qed.

End PageFacts.

(** ** The further properties on the sample data *)

Section MoreSamples.
Import AnalyzeTransactions RateLimit Spec.




Lemma emirates_alias_witness :
  let r := analyzeTransaction Sample.plain Sample.gulf [Sample.gulf]
             (buildDuplicateGroups [Sample.gulf]) in
  level r = medium ∧ score r = 50
  ∧ why r = "Rule 3 triggered: Vendor country is UAE".
Proof.
  intros r.
  destruct (emirates_alias Sample.plain Sample.gulf [Sample.gulf]
              (buildDuplicateGroups [Sample.gulf]))
    as (Hl & Hs & Hw & _); [reflexivity..|].
  split_and!; assumption.
Defined.

Lemma answered_sample :
  let batch := [Sample.acme1; Sample.acme2] in
  assessments
    (serve Sample.plain Sample.noJson Sample.noFence Sample.analysisRequest
       (Sample.analysisWorld 402 (inl "")) ∅).1
  = Some (assess Sample.plain batch (buildDuplicateGroups batch) <$> batch).
Proof. vm_compute. reflexivity. Qed.

Lemma one_assessment_per_transaction_witness :
  ∃ answered,
    assessments
      (serve Sample.plain Sample.noJson Sample.noFence Sample.analysisRequest
         (Sample.analysisWorld 402 (inl "")) ∅).1 = Some answered
    ∧ transaction_id <$> answered = ["a1"; "a2"].
Proof.
  eexists. split; [exact answered_sample|].
  destruct (one_assessment_per_transaction Sample.plain Sample.noJson
              Sample.noFence Sample.analysisRequest
              (Sample.analysisWorld 402 (inl "")) ∅ _ answered_sample)
    as (b & txs & Hb & Ht & Hids & _).
  injection Hb as <-. injection Ht as <-. exact Hids.
Defined.

Lemma admitted_sample batch w :
  SUPABASE_URL w = Some "https://db" → SUPABASE_ANON_KEY w = Some "anon" →
  getClaims w = Some "user-1" → now w = 0%Z →
  admittedToAnalysis (Sample.requestOf batch) w ∅ "user-1".
Proof.
  intros Hu Hk Hc Hn. unfold admittedToAnalysis. rewrite Hu, Hk, Hc, Hn.
  split_and!; try reflexivity; [discriminate|].
  eexists. split; reflexivity.
Qed.

Lemma all_low_skips_narrative_witness :
  let response :=
    (serve Sample.plain Sample.noJson Sample.noFence
       (Sample.requestOf (Some [Sample.small])) Sample.offlineWorld ∅).1 in
  status response = 200
  ∧ risk_level <$> default [] (assessments response) = [low].
Proof.
  intros response. unfold response.
  rewrite (all_low_skips_narrative Sample.plain Sample.noJson Sample.noFence
             (Sample.requestOf (Some [Sample.small])) Sample.offlineWorld ∅
             "user-1"
             {| transactions := Some [Sample.small]; sessionId := "s1" |}
             [Sample.small]).
  - split; reflexivity.
  - by apply admitted_sample.
  - reflexivity.
  - reflexivity.
  - reflexivity.
  - discriminate.
  - repeat constructor.
Defined.

Lemma empty_batch_rejected_witness :
  (serve Sample.plain Sample.noJson Sample.noFence
     (Sample.requestOf (Some [])) Sample.offlineWorld ∅).1
  = errorResponse 500 "No transactions provided" None.
Proof.
  apply (empty_batch_rejected Sample.plain Sample.noJson Sample.noFence
           (Sample.requestOf (Some [])) Sample.offlineWorld ∅ "user-1"
           {| transactions := Some []; sessionId := "s1" |}).
  - by apply admitted_sample.
  - reflexivity.
  - reflexivity.
  - by right.
Defined.

Lemma errors_sanitized_witness :
  error
    (serve Sample.plain Sample.noJson Sample.noFence Sample.analysisRequest
       Sample.offlineWorld ∅).1
  = Some "Analysis failed. Please try again."
  ∧ JS.includes "Analysis failed. Please try again."
      "No transactions provided" = false.
Proof.
  assert (error
            (serve Sample.plain Sample.noJson Sample.noFence
               Sample.analysisRequest Sample.offlineWorld ∅).1
          = Some "Analysis failed. Please try again.") as Herr
    by (vm_compute; reflexivity).
  split; [exact Herr|].
  destruct (errors_sanitized Sample.plain Sample.noJson Sample.noFence)
    as [H _].
  destruct (H Sample.analysisRequest Sample.offlineWorld ∅
              "Analysis failed. Please try again." Herr) as [_|Hin].
  - reflexivity.
  - discriminate Hin.
Defined.

Lemma unauthenticated_rejected_witness :
  let anonymous :=
    {| method := "POST"; Authorization := Some "Basic dXNlcg==";
       body := inr {| transactions := Some [Sample.acme1];
                      sessionId := "s1" |} |} in
  serve Sample.plain Sample.noJson Sample.noFence anonymous
    Sample.offlineWorld (Sample.spent 3)
  = (errorResponse 401
       "Unauthorized: Missing or invalid authorization header" None,
     Sample.spent 3).
Proof.
  intros anonymous.
  destruct (unauthenticated_rejected Sample.plain Sample.noJson
              Sample.noFence) as (H & _).
  apply H; [discriminate|]. intros (h & [= <-] & Hb). discriminate Hb.
Defined.

Lemma rate_limited_rejected_witness :
  serve Sample.plain Sample.noJson Sample.noFence Sample.analysisRequest
    Sample.offlineWorld (Sample.spent 10)
  = (errorResponse 429 "Rate limit exceeded. Please try again later."
       (Some 5%Z), Sample.spent 10).
Proof.
  destruct (rate_limited_rejected Sample.plain Sample.noJson Sample.noFence)
    as (H & _).
  apply (H Sample.analysisRequest Sample.offlineWorld (Sample.spent 10)
           "user-1" 5%Z); try reflexivity; [discriminate|].
  eexists. split; reflexivity.
Defined.

Lemma limiter_counts_bounded_witness :
  let store' := (calls Analysis [0; 1; 2]%Z "user-2" (Sample.spent 10)).2 in
  store' !! "user-1" = Sample.spent 10 !! "user-1"
  ∧ is_Some (store' !! "user-2").
Proof.
  intros store'.
  destruct (limiter_counts_bounded Analysis [0; 1; 2]%Z "user-2"
              (Sample.spent 10)) as (_ & Hown & Hothers).
  - unfold Sample.spent. intros u entry [_ <-]%lookup_singleton_Some.
    vm_compute. lia.
  - split; [by apply Hothers|by apply Hown].
Defined.

Lemma retry_after_bounded_witness :
  let times := [0; 1000; 2000; 3000; 4000; 5000; 6000; 7000; 8000; 9000;
                10500]%Z in
  Denied 3590 ∈ (calls Analysis times "user-1" ∅).1
  ∧ (1 ≤ 3590 ≤ 3600)%Z.
Proof.
  intros times.
  assert (Denied 3590 ∈ (calls Analysis times "user-1" ∅).1) as Hin.
  { apply (list_elem_of_lookup_2 _ 10). reflexivity. }
  split; [exact Hin|].
  apply (retry_after_bounded Analysis times "user-1" ∅).
  - apply lookup_empty.
  - apply (bool_decide_unpack _). vm_compute. exact I.
  - exact Hin.
Defined.


Lemma validateTransactions_first_invalid_row_witness :
  Upload.validateTransactions [Sample.row1; Sample.row2]
  = Some "Invalid date format in row 2. Expected YYYY-MM-DD".
Proof.
  destruct (validateTransactions_first_invalid_row
              [Sample.row1; Sample.row2] 1 Sample.row2) as [H _].
  - simpl. lia.
  - by intros firstTx [= <-].
  - repeat constructor; [|simpl; lia..].
    exists 100%Q. split; [reflexivity|]. unfold Qle. simpl. lia.
  - reflexivity.
  - intros (_ & Hdate & _). discriminate Hdate.
  - rewrite H. reflexivity.
Defined.

Lemma upload_counts_add_up_witness :
  let batch := [Sample.acme1; Sample.acme2] in
  let answered :=
    assess Sample.plain batch (buildDuplicateGroups batch) <$> batch in
  let '(nHigh, nMedium, nLow) := Upload.riskCounts answered in
  nHigh + nMedium + nLow = 2.
Proof.
  exact (upload_counts_add_up Sample.plain Sample.noJson Sample.noFence
           Sample.analysisRequest (Sample.analysisWorld 402 (inl "")) ∅ _
           {| transactions := Some [Sample.acme1; Sample.acme2];
              sessionId := "s1" |}
           [Sample.acme1; Sample.acme2] answered_sample eq_refl eq_refl).
Defined.

Lemma validateFile_accepts_witness :
  Upload.validateFile Sample.sheet = None.
Proof.
  apply (validateFile_accepts Sample.sheet "March.Report" "XLSX").
  - by left.
  - repeat split; discriminate.
  - split_and!.
    + simpl. lia.
    + apply (bool_decide_unpack _). vm_compute. exact I.
    + by left.
Defined.

Lemma own_counter_only_witness :
  (serve Sample.plain Sample.noJson Sample.noFence Sample.analysisRequest
     Sample.offlineWorld ∅).2 !! "user-1" ≠ None
  ∧ getClaims Sample.offlineWorld = Some "user-1".
Proof.
  assert ((serve Sample.plain Sample.noJson Sample.noFence
             Sample.analysisRequest Sample.offlineWorld ∅).2 !! "user-1"
          ≠ (∅ : gmap string Entry) !! "user-1") as Hch
    by (vm_compute; discriminate).
  destruct (own_counter_only Sample.plain Sample.noJson Sample.noFence)
    as [H _].
  destruct (H _ _ _ _ Hch) as (_ & _ & Hc).
  split; [exact Hch|exact Hc].
Defined.

Lemma other_columns_ignored_witness :
  let batch := [Sample.acme1; Sample.acme2] in
  evaluate Sample.plain (Sample.redact <$> batch) (Sample.redact Sample.acme1)
  = evaluate Sample.plain batch Sample.acme1.
Proof.
  intros batch.
  apply (other_columns_ignored Sample.plain Sample.redact batch Sample.acme1).
  intros t. repeat split.
Defined.

End MoreSamples.
